(** * Query algorithms of bax/alg/algorithms.py

    A shallow embedding of the four algorithm classes [LinearScan],
    [LinearScanRandGap], [AverageOutputs] and [OptRightScan], and of the
    run loop they share.

    Conventions of the embedding.
    - Python floats are modelled by exact rationals ([Q]): no rounding, no
      [nan], no infinity. numpy's [ceil], [min], [max], [mean], [linspace]
      and [random.randint] are modelled by their mathematical meaning on
      rationals and integers.
    - The algorithms work on a one dimensional domain: a point is a vector
      of one coordinate, [[v]] in the source, [Pt v] here.
    - A method is a computation in a small state-and-exception monad over
      the objects it can reach: [self.params], the [exe_path] namespace it
      is handed, and a log of the arguments the queried function [f] has
      been called with (ghost state: the source has no such list). [f]
      itself is a total function without effects.
    - A Python exception is an [exn]; a [while] loop is given fuel, one
      unit per iteration of its body, and [OutOfFuel] is the outcome of a
      run that has none left.
    - Printing ([verbose], [print_str], [__str__]) is left out. *)

From Stdlib Require Import String Bool Arith List ZArith QArith Qround Qminmax Lia Lqa.
Import ListNotations.

Set Implicit Arguments.

(** ** Outcomes and the monad *)

Inductive exn : Type :=
| IndexError
| ValueError
| AttributeError.

Inductive outcome (A : Type) : Type :=
| Ret (a : A)
| Raise (e : exn)
| OutOfFuel.

Arguments Ret {A} a.
Arguments Raise {A} e.
Arguments OutOfFuel {A}.

Definition M (S A : Type) : Type := S -> outcome A * S.

Definition ret {S A : Type} (a : A) : M S A := fun s => (Ret a, s).

Definition bind {S A B : Type} (m : M S A) (k : A -> M S B) : M S B :=
  fun s =>
    match m s with
    | (Ret a, s') => k a s'
    | (Raise e, s') => (Raise e, s')
    | (OutOfFuel, s') => (OutOfFuel, s')
    end.

Definition gets {S A : Type} (g : S -> A) : M S A := fun s => (Ret (g s), s).

Definition modify {S : Type} (g : S -> S) : M S unit := fun s => (Ret tt, g s).

Definition raise {S A : Type} (e : exn) : M S A := fun s => (Raise e, s).

Definition out_of_fuel {S A : Type} : M S A := fun s => (OutOfFuel, s).

Declare Scope monad_scope.
Delimit Scope monad_scope with monad.
Notation "x <- m ;; k" := (bind m (fun x => k))
  (at level 61, m at next level, right associativity) : monad_scope.
Notation "m ;; k" := (bind m (fun _ => k))
  (at level 61, right associativity) : monad_scope.
Open Scope monad_scope.

(** [l[i]] for [0 <= i]: IndexError past the end. *)
Definition index {S A : Type} (l : list A) (i : nat) : M S A :=
  match nth_error l i with
  | Some a => ret a
  | None => raise IndexError
  end.

(** [l[-1]]: IndexError on the empty list. *)
Definition index_last {S A : Type} (l : list A) : M S A :=
  match rev l with
  | a :: _ => ret a
  | [] => raise IndexError
  end.

(** ** The execution path: [Namespace(x=[], y=[])] *)

Module ExePath.
Record t (X Y : Type) : Type := mk { x : list X; y : list Y }.
Arguments mk {X Y} x y.
Arguments x {X Y} t.
Arguments y {X Y} t.
End ExePath.

(** ** What a run can reach

    [self_params] is [self.params], [exe_path] the path object of the run,
    [f_calls] the log of the queries made to [f]. *)

Record World (P X Y : Type) : Type := mkWorld {
  self_params : P;
  exe_path : ExePath.t X Y;
  f_calls : list X
}.

Arguments mkWorld {P X Y} self_params exe_path f_calls.
Arguments self_params {P X Y} w.
Arguments exe_path {P X Y} w.
Arguments f_calls {P X Y} w.

(** ** The run loop

    [LinearScan], [AverageOutputs] and [OptRightScan] each carry the same
    body of [run_algorithm_on_f], which differs only in the two methods it
    calls; it is embedded once, over these two methods. *)

Module Runner.
Section Loop.
Context {P X Y Out : Type}.

Variable get_next_x : M (World P X Y) (option X).
Variable get_output_from_exe_path : M (World P X Y) Out.
Variable f : X -> Y.

(** [exe_path = Namespace(x=[], y=[])] *)
Definition new_exe_path : M (World P X Y) unit :=
  modify (fun w => mkWorld (self_params w) (ExePath.mk [] []) (f_calls w)).

(** [f(x)], logged. *)
Definition call_f (x : X) : M (World P X Y) Y :=
  fun w => (Ret (f x), mkWorld (self_params w) (exe_path w) (f_calls w ++ [x])).

(** [exe_path.x.append(x)] *)
Definition append_x (x : X) : M (World P X Y) unit :=
  modify (fun w =>
    mkWorld (self_params w)
            (ExePath.mk (ExePath.x (exe_path w) ++ [x]) (ExePath.y (exe_path w)))
            (f_calls w)).

(** [exe_path.y.append(y)] *)
Definition append_y (y : Y) : M (World P X Y) unit :=
  modify (fun w =>
    mkWorld (self_params w)
            (ExePath.mk (ExePath.x (exe_path w)) (ExePath.y (exe_path w) ++ [y]))
            (f_calls w)).

(** The body of the [while] loop, from [y = f(x)] to the new [x]. *)
Definition loop_body (x : X) : M (World P X Y) (option X) :=
  y <- call_f x ;;
  append_x x ;;
  append_y y ;;
  get_next_x.

(** [while x is not None: ...] *)
Fixpoint while_loop (fuel : nat) (x : option X) : M (World P X Y) unit :=
  match x with
  | None => ret tt
  | Some x' =>
      match fuel with
      | O => out_of_fuel
      | S fuel' => x'' <- loop_body x' ;; while_loop fuel' x''
      end
  end.

Definition run_algorithm_on_f (fuel : nat) : M (World P X Y) (ExePath.t X Y * Out) :=
  new_exe_path ;;
  x <- get_next_x ;;
  while_loop fuel x ;;
  output <- get_output_from_exe_path ;;
  p <- gets exe_path ;;
  ret (p, output).

(** The first [n] iterations of the loop (fewer when it leaves earlier),
    to observe the path after each completed step. *)
Fixpoint loop_prefix (n : nat) (x : option X) : M (World P X Y) (option X) :=
  match n, x with
  | S n', Some x' => x'' <- loop_body x' ;; loop_prefix n' x''
  | _, _ => ret x
  end.

Definition run_prefix (n : nat) : M (World P X Y) (option X) :=
  new_exe_path ;;
  x <- get_next_x ;;
  loop_prefix n x.

End Loop.
End Runner.

(** ** Points and numpy

    The grids and the scan live on a one dimensional domain: a point is the
    one-element list [[v]], and [p[0]] is its coordinate. *)

Record point : Type := Pt { coord : Q }.

Module np.

(** [np.ceil], as an integer. *)
Definition ceil (q : Q) : Z := Qceiling q.

(** [np.min], [np.max]: ValueError on an empty array. *)
Definition min {S : Type} (l : list Q) : M S Q :=
  match l with
  | [] => raise ValueError
  | a :: t => ret (fold_left Qmin t a)
  end.

Definition max {S : Type} (l : list Q) : M S Q :=
  match l with
  | [] => raise ValueError
  | a :: t => ret (fold_left Qmax t a)
  end.

(** [np.mean]: the sum over the count; [None] is the [nan] of an empty
    array. *)
Definition sum (l : list Q) : Q := fold_left Qplus l 0.

Definition mean (l : list Q) : option Q :=
  match l with
  | [] => None
  | _ :: _ => Some (sum l / inject_Z (Z.of_nat (length l)))
  end.

(** [np.linspace(start, stop, num)]: [num] evenly spaced samples
    [i * step + start], the last one set to [stop]; ValueError on a
    negative [num]. *)
Definition linspace {S : Type} (start stop : Q) (num : Z) : M S (list Q) :=
  if (num <? 0)%Z then raise ValueError
  else
    let div := (num - 1)%Z in
    let delta := stop - start in
    let step := delta / inject_Z div in
    let y := map (fun i => inject_Z (Z.of_nat i)) (seq 0 (Z.to_nat num)) in
    let y := if (0 <? div)%Z
             then map (fun i => i * step + start) y
             else map (fun i => i * delta + start) y in
    ret (if (1 <? num)%Z then removelast y ++ [stop] else y).

(** [np.random.randint(low, high)]: an integer of [[low, high)], chosen by
    the generator's raw [draw]; ValueError when the range is empty. *)
Definition random_randint {S : Type} (low high draw : Z) : M S Z :=
  if (low <? high)%Z then ret (low + draw mod (high - low))%Z
  else raise ValueError.

End np.

(** Modelled from the spec: [dict_to_namespace] of bax/util/misc_util.py is
    not among the sources. The configuration it returns is a namespace of
    named options, each present or absent ([params=None] has none). *)
Definition dict_to_namespace {C : Type} (params : C) : C := params.

(** ** LinearScan *)

Module LinearScan.

(** [self.params]. [x_path_orig] is the attribute that
    [LinearScanRandGap.__init__] adds to the namespace; it is absent
    ([None]) from the namespace [set_params] builds. *)
Record Params (X : Type) : Type := mkParams {
  name : string;
  x_path : list X;
  x_path_orig : option (list X)
}.
Arguments mkParams {X} name x_path x_path_orig.
Arguments name {X} p.
Arguments x_path {X} p.
Arguments x_path_orig {X} p.

(** The [params] argument of [set_params]. *)
Record Config (X : Type) : Type := mkConfig {
  cfg_name : option string;
  cfg_x_path : option (list X)
}.
Arguments mkConfig {X} cfg_name cfg_x_path.
Arguments cfg_name {X} c.
Arguments cfg_x_path {X} c.

(** [getattr(params, attr, default)] *)
Definition getattr {A : Type} (attr : option A) (default : A) : A :=
  match attr with
  | Some a => a
  | None => default
  end.

Definition set_params {Y : Type} (params : Config point)
  : M (World (Params point) point Y) unit :=
  let params := dict_to_namespace params in
  let name := getattr (cfg_name params) "LinearScan"%string in
  xs <- np.linspace 3.5 20 100 ;;
  let default_x_path := map Pt xs in
  let x_path := getattr (cfg_x_path params) default_x_path in
  modify (fun w => mkWorld (mkParams name x_path None) (exe_path w) (f_calls w)).

(** [__init__], without the printing. *)
Definition __init__ {Y : Type} (params : Config point)
  : M (World (Params point) point Y) unit :=
  set_params params.

Section Methods.
Context {X Y : Type}.

Definition get_next_x : M (World (Params X) X Y) (option X) :=
  len_path <- gets (fun w => length (ExePath.x (exe_path w))) ;;
  grid <- gets (fun w => x_path (self_params w)) ;;
  if (len_path =? length grid)%nat then ret None
  else next_x <- index grid len_path ;; ret (Some next_x).

Definition get_output_from_exe_path : M (World (Params X) X Y) (list Y) :=
  gets (fun w => ExePath.y (exe_path w)).

Definition run_algorithm_on_f (f : X -> Y) (fuel : nat)
  : M (World (Params X) X Y) (ExePath.t X Y * list Y) :=
  Runner.run_algorithm_on_f get_next_x get_output_from_exe_path f fuel.

Definition run_prefix (f : X -> Y) (n : nat)
  : M (World (Params X) X Y) (option X) :=
  Runner.run_prefix get_next_x f n.

End Methods.
End LinearScan.

(** ** LinearScanRandGap(LinearScan) *)

Module LinearScanRandGap.
Import LinearScan.

Section Methods.
Context {Y : Type}.

(** [get_next_x] and [get_output_from_exe_path] are inherited. *)
Definition get_next_x : M (World (Params point) point Y) (option point) :=
  LinearScan.get_next_x.

Definition get_output_from_exe_path : M (World (Params point) point Y) (list Y) :=
  LinearScan.get_output_from_exe_path.

(** [__init__]: the constructor of [LinearScan], then the snapshot of the
    grid ([copy.deepcopy] of an immutable value is the value). *)
Definition __init__ (params : Config point)
  : M (World (Params point) point Y) unit :=
  LinearScan.__init__ params ;;
  grid <- gets (fun w => x_path (self_params w)) ;;
  modify (fun w =>
    mkWorld (mkParams (name (self_params w)) (x_path (self_params w)) (Some grid))
            (exe_path w) (f_calls w)).

(** Lines 112 to 121: the grid of this run, drawn anew. *)
Definition resample (draw : Z) : M (World (Params point) point Y) unit :=
  orig <- gets (fun w => x_path_orig (self_params w)) ;;
  x_path <- match orig with
            | Some g => ret g
            | None => raise AttributeError
            end ;;
  let n_grid := inject_Z (Z.of_nat (length x_path)) in
  let rand_factor := 0.2 in
  let min_gap := np.ceil ((1 - rand_factor) * n_grid) in
  let max_gap := np.ceil ((1 + rand_factor) * n_grid) in
  new_n_grid <- np.random_randint min_gap max_gap draw ;;
  min_x_path <- np.min (map coord x_path) ;;
  max_x_path <- np.max (map coord x_path) ;;
  xs <- np.linspace min_x_path max_x_path new_n_grid ;;
  let new_x_path := map Pt xs in
  modify (fun w =>
    mkWorld (mkParams (name (self_params w)) new_x_path (x_path_orig (self_params w)))
            (exe_path w) (f_calls w)).

Definition run_algorithm_on_f (f : point -> Y) (draw : Z) (fuel : nat)
  : M (World (Params point) point Y) (ExePath.t point Y * list Y) :=
  resample draw ;;
  LinearScan.run_algorithm_on_f f fuel.

Definition run_prefix (f : point -> Y) (draw : Z) (n : nat)
  : M (World (Params point) point Y) (option point) :=
  resample draw ;;
  LinearScan.run_prefix f n.

(** One run after the other on the same instance, whatever their
    outcomes. *)
Fixpoint run_many (runs : list ((point -> Y) * Z * nat))
  (w : World (Params point) point Y) : World (Params point) point Y :=
  match runs with
  | [] => w
  | (f, draw, fuel) :: runs' =>
      run_many runs' (snd (run_algorithm_on_f f draw fuel w))
  end.

End Methods.
End LinearScanRandGap.

(** ** AverageOutputs *)

Module AverageOutputs.

Record Params (X : Type) : Type := mkParams {
  name : string;
  x_path : list X
}.
Arguments mkParams {X} name x_path.
Arguments name {X} p.
Arguments x_path {X} p.

(** The [params] argument of [set_params]. *)
Record Config (X : Type) : Type := mkConfig {
  cfg_name : option string;
  cfg_x_path : option (list X)
}.
Arguments mkConfig {X} cfg_name cfg_x_path.
Arguments cfg_name {X} c.
Arguments cfg_x_path {X} c.

Definition set_params (params : Config point)
  : M (World (Params point) point Q) unit :=
  let params := dict_to_namespace params in
  let name := LinearScan.getattr (cfg_name params) "AverageOutputs"%string in
  let default_x_path := [Pt 5.1; Pt 5.3; Pt 5.5; Pt 20.1; Pt 20.3; Pt 20.5] in
  let x_path := LinearScan.getattr (cfg_x_path params) default_x_path in
  modify (fun w => mkWorld (mkParams name x_path) (exe_path w) (f_calls w)).

Section Methods.
Context {X : Type}.

Definition get_next_x : M (World (Params X) X Q) (option X) :=
  len_path <- gets (fun w => length (ExePath.x (exe_path w))) ;;
  grid <- gets (fun w => x_path (self_params w)) ;;
  if (len_path =? length grid)%nat then ret None
  else next_x <- index grid len_path ;; ret (Some next_x).

Definition get_output_from_exe_path : M (World (Params X) X Q) (option Q) :=
  ys <- gets (fun w => ExePath.y (exe_path w)) ;;
  ret (np.mean ys).

Definition run_algorithm_on_f (f : X -> Q) (fuel : nat)
  : M (World (Params X) X Q) (ExePath.t X Q * option Q) :=
  Runner.run_algorithm_on_f get_next_x get_output_from_exe_path f fuel.

Definition run_prefix (f : X -> Q) (n : nat)
  : M (World (Params X) X Q) (option X) :=
  Runner.run_prefix get_next_x f n.

End Methods.
End AverageOutputs.

(** ** OptRightScan *)

Module OptRightScan.

Record Params : Type := mkParams {
  name : string;
  init_x : point;
  x_grid_gap : Q;
  conv_thresh : Q;
  max_iter : Z
}.

(** The [params] argument of [set_params]. *)
Record Config : Type := mkConfig {
  cfg_name : option string;
  cfg_init_x : option point;
  cfg_x_grid_gap : option Q;
  cfg_conv_thresh : option Q;
  cfg_max_iter : option Z
}.

Definition set_params (params : Config) : M (World Params point Q) unit :=
  let params := dict_to_namespace params in
  let name := LinearScan.getattr (cfg_name params) "OptRightScan"%string in
  let init_x := LinearScan.getattr (cfg_init_x params) (Pt 4.0) in
  let x_grid_gap := LinearScan.getattr (cfg_x_grid_gap params) 0.1 in
  let conv_thresh := LinearScan.getattr (cfg_conv_thresh params) 0.2 in
  let max_iter := LinearScan.getattr (cfg_max_iter params) 100%Z in
  modify (fun w =>
    mkWorld (mkParams name init_x x_grid_gap conv_thresh max_iter)
            (exe_path w) (f_calls w)).

(** [a > b] on floats. *)
Definition gt (a b : Q) : bool := negb (Qle_bool a b).

Definition get_next_x : M (World Params point Q) (option point) :=
  len_path <- gets (fun w => length (ExePath.x (exe_path w))) ;;
  next_x <- (if (len_path =? 0)%nat
             then init <- gets (fun w => init_x (self_params w)) ;;
                  ret (Some init)
             else xs <- gets (fun w => ExePath.x (exe_path w)) ;;
                  last_x <- index_last xs ;;
                  gap <- gets (fun w => x_grid_gap (self_params w)) ;;
                  ret (Some (Pt (coord last_x + gap)))) ;;
  next_x <- (if (2 <=? len_path)%nat
             then ys <- gets (fun w => ExePath.y (exe_path w)) ;;
                  best <- np.min (removelast ys) ;;
                  thresh <- gets (fun w => conv_thresh (self_params w)) ;;
                  let conv_max_val := best + thresh in
                  last_y <- index_last ys ;;
                  if gt last_y conv_max_val then ret None else ret next_x
             else ret next_x) ;;
  cap <- gets (fun w => max_iter (self_params w)) ;;
  let next_x := if (cap <? Z.of_nat len_path)%Z then None else next_x in
  ret next_x.

Definition get_output_from_exe_path : M (World Params point Q) point :=
  xs <- gets (fun w => ExePath.x (exe_path w)) ;;
  index_last xs.

Definition run_algorithm_on_f (f : point -> Q) (fuel : nat)
  : M (World Params point Q) (ExePath.t point Q * point) :=
  Runner.run_algorithm_on_f get_next_x get_output_from_exe_path f fuel.

Definition run_prefix (f : point -> Q) (n : nat)
  : M (World Params point Q) (option point) :=
  Runner.run_prefix get_next_x f n.

End OptRightScan.

(** ** bax/util/timing.py: Timer

    The clock and the formatting are the environment's: the readings of
    [time.time()] and the text of [datetime.datetime.now()] are arguments
    of the methods that take them, and ['%.2f' % seconds] is the function
    [fmt]. What the timer prints or appends to a file is logged in
    [written]; opening the file is taken to succeed. *)

Module Timer.

Inductive output : Type :=
| Printed (line : string)
| Appended (file : string) (line : string).

(** The attributes of a timer; [tstart] is absent until [__enter__]. *)
Record t : Type := mk {
  name : option string;
  filename : option string;
  verbose : bool;
  tstart : option Q
}.

Record World : Type := mkWorld {
  self : t;
  written : list output
}.

(** [if s:] on [None] or a string. *)
Definition truthy (s : option string) : bool :=
  match s with
  | Some s' => negb (String.eqb s' "")
  | None => false
  end.

(** [str(s)] of a string that is there. *)
Definition str (s : option string) : string :=
  match s with
  | Some s' => s'
  | None => "None"
  end.

Definition emit (o : output) : M World unit :=
  modify (fun w => mkWorld (self w) (written w ++ [o])).

Section Methods.
Variable fmt : Q -> string.

Definition __init__ (name filename : option string) (verbose : bool)
  : M World unit :=
  modify (fun w => mkWorld (mk name filename false (tstart (self w))) (written w)).

Definition __enter__ (now : Q) : M World unit :=
  modify (fun w =>
    mkWorld (mk (name (self w)) (filename (self w)) (verbose (self w)) (Some now))
            (written w)).

Definition __exit__ (now : Q) (stamp : string) : M World unit :=
  start <- gets (fun w => tstart (self w)) ;;
  start <- match start with
           | Some s => ret s
           | None => raise AttributeError
           end ;;
  let message := ("Elapsed: " ++ fmt (now - start) ++ " seconds")%string in
  name <- gets (fun w => name (self w)) ;;
  let message := if truthy name
                 then ("*[TIME] [" ++ str name ++ "] " ++ message)%string
                 else message in
  verbose <- gets (fun w => verbose (self w)) ;;
  (if verbose then emit (Printed message) else ret tt) ;;
  filename <- gets (fun w => filename (self w)) ;;
  if truthy filename
  then emit (Appended (str filename) (stamp ++ ": " ++ " " ++ message)%string)
  else ret tt.

(** [with Timer(name, filename, verbose): body], for a body that takes
    the clock from [start] to [stop] and raises nothing. *)
Definition timed (name filename : option string) (verbose : bool)
  (start stop : Q) (stamp : string) : M World unit :=
  __init__ name filename verbose ;;
  __enter__ start ;;
  __exit__ stop stamp.

End Methods.
End Timer.

(** * Vocabulary of the statements *)

(** The world once the points [xs] have been queried on [f], in this order,
    after the path of [w]. *)
Definition advance {P X Y : Type} (f : X -> Y) (xs : list X) (w : World P X Y)
  : World P X Y :=
  mkWorld (self_params w)
          (ExePath.mk (ExePath.x (exe_path w) ++ xs)
                      (ExePath.y (exe_path w) ++ map f xs))
          (f_calls w ++ xs).

(** The same from an empty path. *)
Definition scanned {P X Y : Type} (f : X -> Y) (xs : list X) (w : World P X Y)
  : World P X Y :=
  mkWorld (self_params w) (ExePath.mk xs (map f xs)) (f_calls w ++ xs).

(** What the index-based walk over a grid answers on a path of length
    [len]. *)
Definition walk {X : Type} (grid : list X) (len : nat) : outcome (option X) :=
  if (len =? length grid)%nat then Ret None
  else match nth_error grid len with
       | Some a => Ret (Some a)
       | None => Raise IndexError
       end.

(** One output per input: the shape of a path between two steps of the
    loop. *)
Definition paired {X Y : Type} (p : ExePath.t X Y) : Prop :=
  length (ExePath.x p) = length (ExePath.y p).

(** [best] is a least element of [l]. *)
Definition least (best : Q) (l : list Q) : Prop :=
  In best l /\ forall v, In v l -> best <= v.

(** The convergence test of [OptRightScan.get_next_x] on the outputs [ys]:
    the last one against the least of the others. *)
Definition risen (thresh : Q) (ys : list Q) : bool :=
  match removelast ys, rev ys with
  | a :: t, last_y :: _ => OptRightScan.gt last_y (fold_left Qmin t a + thresh)
  | _, _ => false
  end.

(** What [OptRightScan.get_next_x] answers on a paired path. *)
Definition next_of (P : OptRightScan.Params) (p : ExePath.t point Q)
  : option point :=
  if (OptRightScan.max_iter P <? Z.of_nat (length (ExePath.x p)))%Z then None
  else if (2 <=? length (ExePath.x p))%nat
          && risen (OptRightScan.conv_thresh P) (ExePath.y p)
       then None
       else Some (match rev (ExePath.x p) with
                  | [] => OptRightScan.init_x P
                  | last_x :: _ => Pt (coord last_x + OptRightScan.x_grid_gap P)
                  end).

(** [f] does not increase from a point to a point on its right. *)
Definition never_rises (f : point -> Q) : Prop :=
  forall a b, coord a < coord b -> f b <= f a.

(** A path of [f] whose last input lies to the right of all the others. *)
Definition rightmost_last (f : point -> Q) (p : ExePath.t point Q) : Prop :=
  ExePath.y p = map f (ExePath.x p)
  /\ forall front last_x,
       ExePath.x p = front ++ [last_x] ->
       Forall (fun a => coord a < coord last_x) front.

(** A world of [OptRightScan] and the function [-x], which decreases all
    the way: the scan from [4.0] by steps of [0.1], threshold [0.2]. *)
Definition scan_world (cap : Z) (p : ExePath.t point Q)
  : World OptRightScan.Params point Q :=
  mkWorld (OptRightScan.mkParams "OptRightScan" (Pt 4.0) 0.1 0.2 cap) p [].

Definition downhill (p : point) : Q := - coord p.

(** A computation that reads the state and leaves it as it is. *)
Definition reader {S A : Type} (m : M S A) : Prop := forall s, snd (m s) = s.

(** Calling [m] twice in a row: the same answer, and the state is the one
    before the calls. *)
Definition repeatable {S A : Type} (m : M S A) : Prop :=
  forall s, let (r1, s1) := m s in
            let (r2, s2) := m s1 in
            r1 = r2 /\ s1 = s /\ s2 = s.

(** The path of a run, observed after each completed step of its loop
    ([prefix_run n] runs the first [n] steps): it starts empty, holds one
    output per input after each step, and a step leaves it as it is (the
    loop is over) or appends one pair [(x, f x)] at its end; the path a run
    returns is the one its last step left. *)
Definition append_only {P X Y Out : Type} (f : X -> Y)
  (run : nat -> M (World P X Y) (ExePath.t X Y * Out))
  (prefix_run : nat -> M (World P X Y) (option X)) (w : World P X Y) : Prop :=
  exe_path (snd (prefix_run 0%nat w)) = ExePath.mk [] []
  /\ (forall n : nat,
        paired (exe_path (snd (prefix_run n w)))
        /\ (exe_path (snd (prefix_run (S n) w)) = exe_path (snd (prefix_run n w))
            \/ exists x,
                 exe_path (snd (prefix_run (S n) w))
                 = ExePath.mk
                     (ExePath.x (exe_path (snd (prefix_run n w))) ++ [x])
                     (ExePath.y (exe_path (snd (prefix_run n w))) ++ [f x])))
  /\ (forall (fuel : nat) (path : ExePath.t X Y) (out : Out) (w' : World P X Y),
        run fuel w = (Ret (path, out), w') ->
        exe_path (snd (prefix_run fuel w)) = path).

(** One more step of the loop after the ones done, when it is not over. *)
Definition one_more {P X Y : Type} (get_next_x : M (World P X Y) (option X))
  (f : X -> Y) (x : option X) : M (World P X Y) (option X) :=
  match x with
  | Some x' => Runner.loop_body get_next_x f x'
  | None => ret None
  end.

(** [top] is a greatest element of [l]. *)
Definition greatest (top : Q) (l : list Q) : Prop :=
  In top l /\ forall v, In v l -> v <= top.

(** An instance of [LinearScanRandGap] whose snapshot is [orig], with [grid]
    as the grid of its last run. *)
Definition gap_world (grid orig : list point)
  : World (LinearScan.Params point) point Q :=
  mkWorld (LinearScan.mkParams "LinearScanRandGap" grid (Some orig))
          (ExePath.mk [] []) [].

(** [self.params.x_path = grid] *)
Definition with_x_path {Y : Type} (grid : list point)
  (w : World (LinearScan.Params point) point Y)
  : World (LinearScan.Params point) point Y :=
  mkWorld (LinearScan.mkParams (LinearScan.name (self_params w)) grid
                               (LinearScan.x_path_orig (self_params w)))
          (exe_path w) (f_calls w).

(** A fresh instance, before [set_params]: no parameter is set yet. *)
Definition blank_scan : World (LinearScan.Params point) point Q :=
  mkWorld (LinearScan.mkParams "" [] None) (ExePath.mk [] []) [].

Definition blank_right_scan : World OptRightScan.Params point Q :=
  mkWorld (OptRightScan.mkParams "" (Pt 0) 0 0 0) (ExePath.mk [] []) [].

(** ** Vocabulary of the further properties *)

(** A run that returns has recorded its queries: the path it returns is the
    one left in the state, its outputs are the images by [f] of its inputs,
    and the calls made to [f] during the run are its inputs, in order. *)
Definition records_each_query {P X Y Out : Type} (f : X -> Y)
  (run : nat -> M (World P X Y) (ExePath.t X Y * Out)) : Prop :=
  forall (fuel : nat) (w w' : World P X Y) (path : ExePath.t X Y) (out : Out),
    run fuel w = (Ret (path, out), w') ->
    exe_path w' = path
    /\ ExePath.y path = map f (ExePath.x path)
    /\ f_calls w' = f_calls w ++ ExePath.x path.

(** [get_next_x] replays the inputs [xs] from the state [base]: on the path
    of the first [k] of them it proposes the next one, and on the path of
    all of them it answers the stop sentinel. *)
Definition replayed_by {P X Y : Type} (get_next_x : M (World P X Y) (option X))
  (f : X -> Y) (base : World P X Y) (xs : list X) : Prop :=
  fst (get_next_x (scanned f xs base)) = Ret None
  /\ forall (k : nat) (x : X),
       nth_error xs k = Some x ->
       fst (get_next_x (scanned f (firstn k xs) base)) = Ret (Some x).

(** A function with its least value at [4.2], which rises from there. *)
Definition valley (p : point) : Q := (coord p - 4.2) * (coord p - 4.2) * 100.

(** The line of a timer: the name in a tag when there is one, then the
    elapsed time. *)
Definition timer_message (fmt : Q -> string) (name : option string)
  (elapsed : Q) : string :=
  match name with
  | Some n =>
      if String.eqb n "" then ("Elapsed: " ++ fmt elapsed ++ " seconds")%string
      else ("*[TIME] [" ++ n ++ "] Elapsed: " ++ fmt elapsed ++ " seconds")%string
  | None => ("Elapsed: " ++ fmt elapsed ++ " seconds")%string
  end.

(** * Proofs *)

Ltac munfold :=
  unfold bind, ret, gets, modify, raise, out_of_fuel, index, index_last in *.

Lemma bind_assoc {S A B C : Type} (m : M S A) (k : A -> M S B) (h : B -> M S C)
  (s : S) :
  bind (bind m k) h s = bind m (fun a => bind (k a) h) s.
Proof.
  unfold bind. destruct (m s) as [[a| |] s']; reflexivity.
Qed.

Section GridWalk.
Context {P X Y : Type}.
Variable grid_of : P -> list X.
Variable get_next_x : M (World P X Y) (option X).
Variable f : X -> Y.
Hypothesis get_next_x_walk :
  forall w, get_next_x w
            = (walk (grid_of (self_params w)) (length (ExePath.x (exe_path w))), w).

Lemma advance_nil (w : World P X Y) : advance f [] w = w.
Proof.
  destruct w as [p [xs ys] c]. unfold advance. simpl.
  now rewrite !app_nil_r.
Qed.

Lemma advance_cons (a : X) (xs : list X) (w : World P X Y) :
  advance f xs (advance f [a] w) = advance f (a :: xs) w.
Proof.
  unfold advance. simpl. now rewrite <- !app_assoc.
Qed.

Lemma walk_mid (pre rest : list X) (a : X) :
  walk (pre ++ a :: rest) (length pre) = Ret (Some a).
Proof.
  unfold walk.
  destruct (Nat.eqb_spec (length pre) (length (pre ++ a :: rest))) as [E|_].
  - rewrite length_app in E. simpl in E. lia.
  - rewrite nth_error_app2 by lia. now rewrite Nat.sub_diag.
Qed.

Lemma walk_end (grid : list X) : walk grid (length grid) = Ret None.
Proof. unfold walk. now rewrite Nat.eqb_refl. Qed.

Lemma grid_loop (rest : list X) :
  forall (fuel : nat) (pre : list X) (w : World P X Y),
    grid_of (self_params w) = pre ++ rest ->
    length (ExePath.x (exe_path w)) = length pre ->
    bind get_next_x (Runner.while_loop get_next_x f fuel) w
    = if (length rest <=? fuel)%nat
      then (Ret tt, advance f rest w)
      else (OutOfFuel, advance f (firstn fuel rest) w).
Proof.
  induction rest as [|a rest IH]; intros fuel pre w Hg Hl.
  - unfold bind. rewrite get_next_x_walk, Hg, Hl, app_nil_r, walk_end.
    destruct fuel; simpl; rewrite ?firstn_nil, advance_nil; reflexivity.
  - unfold bind at 1. rewrite get_next_x_walk, Hg, Hl, walk_mid.
    destruct fuel as [|fuel].
    + simpl. now rewrite advance_nil.
    + change (Runner.while_loop get_next_x f (S fuel) (Some a) w)
        with (bind get_next_x (Runner.while_loop get_next_x f fuel)
                (advance f [a] w)).
      rewrite (IH fuel (pre ++ [a])).
      * simpl. destruct (length rest <=? fuel)%nat; now rewrite advance_cons.
      * simpl. rewrite Hg, <- app_assoc. reflexivity.
      * simpl. rewrite !length_app, Hl. reflexivity.
Qed.

End GridWalk.

(** ** The walk over a grid, run to its end *)

Section GridRun.
Context {P X Y Out : Type}.
Variable grid_of : P -> list X.
Variable get_next_x : M (World P X Y) (option X).
Variable get_output_from_exe_path : M (World P X Y) Out.
Variable out_of : list Y -> Out.
Variable f : X -> Y.
Hypothesis get_next_x_walk :
  forall w, get_next_x w
            = (walk (grid_of (self_params w)) (length (ExePath.x (exe_path w))), w).
Hypothesis get_output_reads :
  forall w, get_output_from_exe_path w = (Ret (out_of (ExePath.y (exe_path w))), w).

Lemma grid_run (fuel : nat) (w : World P X Y) :
  Runner.run_algorithm_on_f get_next_x get_output_from_exe_path f fuel w
  = if (length (grid_of (self_params w)) <=? fuel)%nat
    then (Ret (ExePath.mk (grid_of (self_params w)) (map f (grid_of (self_params w))),
               out_of (map f (grid_of (self_params w)))),
          scanned f (grid_of (self_params w)) w)
    else (OutOfFuel, scanned f (firstn fuel (grid_of (self_params w))) w).
Proof.
  unfold Runner.run_algorithm_on_f, Runner.new_exe_path.
  unfold bind at 1. unfold modify at 1.
  set (w0 := mkWorld (self_params w) (ExePath.mk [] []) (f_calls w)).
  rewrite <- bind_assoc. unfold bind at 1.
  rewrite (@grid_loop P X Y grid_of get_next_x f get_next_x_walk
             (grid_of (self_params w)) fuel [] w0 eq_refl eq_refl).
  destruct (length (grid_of (self_params w)) <=? fuel)%nat; [|reflexivity].
  unfold bind. rewrite get_output_reads. reflexivity.
Qed.

End GridRun.

(** ** LinearScan *)

Lemma LinearScan_get_next_x_walk {X Y : Type} (w : World (LinearScan.Params X) X Y) :
  LinearScan.get_next_x w
  = (walk (LinearScan.x_path (self_params w)) (length (ExePath.x (exe_path w))), w).
Proof.
  unfold LinearScan.get_next_x, walk. munfold.
  destruct (_ =? _)%nat; [reflexivity|].
  destruct (nth_error _ _); reflexivity.
Qed.

(** C1. On every grid and every function [f], [LinearScan.run_algorithm_on_f]
    queries [f] on the grid points, once each and in grid order, and returns
    the path of these points with, as output, the list of their images
    [[f(x) for x in grid]]; the loop body runs [len(grid)] times exactly: the
    run completes on this much fuel and on no less. *)
Theorem LinearScan_run_scans_the_grid {X Y : Type}
  (f : X -> Y) (fuel : nat) (w : World (LinearScan.Params X) X Y) :
  LinearScan.run_algorithm_on_f f fuel w
  = if (length (LinearScan.x_path (self_params w)) <=? fuel)%nat
    then (Ret (ExePath.mk (LinearScan.x_path (self_params w))
                          (map f (LinearScan.x_path (self_params w))),
               map f (LinearScan.x_path (self_params w))),
          scanned f (LinearScan.x_path (self_params w)) w)
    else (OutOfFuel, scanned f (firstn fuel (LinearScan.x_path (self_params w))) w).
Proof.
  unfold LinearScan.run_algorithm_on_f.
  apply grid_run with (grid_of := @LinearScan.x_path X) (out_of := fun ys => ys).
  - apply LinearScan_get_next_x_walk.
  - reflexivity.
Qed.

(** ** AverageOutputs *)

Lemma AverageOutputs_get_next_x_walk {X : Type}
  (w : World (AverageOutputs.Params X) X Q) :
  AverageOutputs.get_next_x w
  = (walk (AverageOutputs.x_path (self_params w))
          (length (ExePath.x (exe_path w))), w).
Proof.
  unfold AverageOutputs.get_next_x, walk. munfold.
  destruct (_ =? _)%nat; [reflexivity|].
  destruct (nth_error _ _); reflexivity.
Qed.

Lemma mean_times_count (a : Q) (l : list Q) :
  exists m, np.mean (a :: l) = Some m
            /\ m * inject_Z (Z.of_nat (length (a :: l))) == np.sum (a :: l).
Proof.
  eexists. split; [reflexivity|].
  rewrite Qmult_comm. apply Qmult_div_r.
  intro E. apply (f_equal (fun z => (z * 1)%Z)) in E.
  unfold Qeq in E. simpl Qnum in E. simpl Qden in E. simpl length in E. lia.
Qed.

(** C4. On every non-empty list of points and every function [f],
    [AverageOutputs.run_algorithm_on_f] queries [f] on the configured
    points, once each and in their order, and returns the path of these
    points with, as output, one number [m]: the arithmetic mean of the
    observed outputs, that is [m * len(points)] is their sum. *)
Theorem AverageOutputs_run_returns_the_mean {X : Type}
  (f : X -> Q) (fuel : nat) (w : World (AverageOutputs.Params X) X Q)
  (Hpoints : AverageOutputs.x_path (self_params w) <> [])
  (Hfuel : (length (AverageOutputs.x_path (self_params w)) <= fuel)%nat) :
  exists m : Q,
    AverageOutputs.run_algorithm_on_f f fuel w
    = (Ret (ExePath.mk (AverageOutputs.x_path (self_params w))
                       (map f (AverageOutputs.x_path (self_params w))),
            Some m),
       scanned f (AverageOutputs.x_path (self_params w)) w)
    /\ m * inject_Z (Z.of_nat (length (AverageOutputs.x_path (self_params w))))
       == np.sum (map f (AverageOutputs.x_path (self_params w))).
Proof.
  unfold AverageOutputs.run_algorithm_on_f.
  rewrite grid_run with (grid_of := @AverageOutputs.x_path X) (out_of := np.mean)
    by (reflexivity || apply AverageOutputs_get_next_x_walk).
  apply Nat.leb_le in Hfuel. rewrite Hfuel.
  destruct (AverageOutputs.x_path (self_params w)) as [|a l]; [congruence|].
  destruct (mean_times_count (f a) (map f l)) as [m [Hm Hs]].
  exists m. split.
  - simpl map. rewrite Hm. reflexivity.
  - simpl length in *. rewrite length_map in Hs. exact Hs.
Qed.

(** The default points [5.1, 5.3, 5.5, 20.1, 20.3, 20.5] and the function
    that returns the coordinate. *)
Lemma AverageOutputs_run_returns_the_mean_witness :
  exists m : Q,
    AverageOutputs.run_algorithm_on_f coord 6
      (mkWorld (AverageOutputs.mkParams "AverageOutputs"
                  [Pt 5.1; Pt 5.3; Pt 5.5; Pt 20.1; Pt 20.3; Pt 20.5])
               (ExePath.mk [] []) [])
    = (Ret (ExePath.mk [Pt 5.1; Pt 5.3; Pt 5.5; Pt 20.1; Pt 20.3; Pt 20.5]
                       [5.1; 5.3; 5.5; 20.1; 20.3; 20.5],
            Some m),
       mkWorld (AverageOutputs.mkParams "AverageOutputs"
                  [Pt 5.1; Pt 5.3; Pt 5.5; Pt 20.1; Pt 20.3; Pt 20.5])
               (ExePath.mk [Pt 5.1; Pt 5.3; Pt 5.5; Pt 20.1; Pt 20.3; Pt 20.5]
                           [5.1; 5.3; 5.5; 20.1; 20.3; 20.5])
               [Pt 5.1; Pt 5.3; Pt 5.5; Pt 20.1; Pt 20.3; Pt 20.5])
    /\ m * 6 == 76.8.
Proof.
  destruct (@AverageOutputs_run_returns_the_mean point coord 6
              (mkWorld (AverageOutputs.mkParams "AverageOutputs"
                          [Pt 5.1; Pt 5.3; Pt 5.5; Pt 20.1; Pt 20.3; Pt 20.5])
                       (ExePath.mk [] []) []))
    as [m [Hrun Hmean]].
  - discriminate.
  - simpl. lia.
  - exists m. split.
    + exact Hrun.
    + rewrite Hmean. reflexivity.
Defined.

(** ** OptRightScan *)

Lemma rev_cons_not_nil {A : Type} (a : A) (l : list A) : rev (a :: l) <> [].
Proof.
  intro E. apply (f_equal (@length A)) in E.
  rewrite length_rev in E. discriminate.
Qed.

Lemma OptRightScan_get_next_x_paired (w : World OptRightScan.Params point Q) :
  paired (exe_path w) ->
  OptRightScan.get_next_x w = (Ret (next_of (self_params w) (exe_path w)), w).
Proof.
  destruct w as [P [xs ys] c]. unfold paired. cbn [exe_path ExePath.x ExePath.y].
  intro Hlen.
  unfold OptRightScan.get_next_x, next_of, risen. munfold.
  cbn [exe_path ExePath.x ExePath.y self_params].
  destruct xs as [|x0 xs].
  - cbn. destruct (_ <? _)%Z; reflexivity.
  - cbn [length Nat.eqb].
    destruct xs as [|x1 xs].
    + cbn. destruct (_ <? _)%Z; reflexivity.
    + destruct ys as [|y0 [|y1 ys]]; try discriminate Hlen.
      pose proof (@rev_cons_not_nil _ x0 (x1 :: xs)) as Hx.
      pose proof (@rev_cons_not_nil _ y0 (y1 :: ys)) as Hy.
      cbn [length Nat.leb andb].
      unfold np.min. munfold.
      cbn [exe_path ExePath.x ExePath.y self_params].
      destruct (rev (x0 :: x1 :: xs)) as [|last_x rx]; [congruence|].
      cbn [exe_path ExePath.x ExePath.y self_params].
      change (removelast (y0 :: y1 :: ys)) with (y0 :: removelast (y1 :: ys)).
      cbn [exe_path ExePath.x ExePath.y self_params].
      destruct (rev (y0 :: y1 :: ys)) as [|last_y ry]; [congruence|].
      cbn [exe_path ExePath.x ExePath.y self_params].
      destruct (OptRightScan.gt _ _); destruct (_ <? _)%Z; reflexivity.
Qed.

Lemma fold_min_in (t : list Q) : forall a, In (fold_left Qmin t a) (a :: t).
Proof.
  induction t as [|b t IH]; intro a; simpl.
  - now left.
  - destruct (IH (Qmin a b)) as [E|I].
    + rewrite <- E. unfold Qmin, GenericMinMax.gmin.
      destruct (a ?= b); auto.
    + auto.
Qed.

Lemma fold_min_le_start (t : list Q) : forall a, fold_left Qmin t a <= a.
Proof.
  induction t as [|b t IH]; intro a; simpl.
  - apply Qle_refl.
  - eapply Qle_trans; [apply IH|apply Q.le_min_l].
Qed.

Lemma fold_min_lower (t : list Q) :
  forall a v, In v (a :: t) -> fold_left Qmin t a <= v.
Proof.
  induction t as [|b t IH]; intros a v [E|I]; simpl.
  - subst. apply Qle_refl.
  - destruct I.
  - subst. apply (fold_min_le_start (b :: t)).
  - destruct I as [E|I].
    + subst. eapply Qle_trans; [apply fold_min_le_start|apply Q.le_min_r].
    + apply IH. now right.
Qed.

Lemma fold_min_least (a : Q) (t : list Q) : least (fold_left Qmin t a) (a :: t).
Proof. split; [apply fold_min_in|apply fold_min_lower]. Qed.

Lemma least_unique (l : list Q) (b1 b2 : Q) : least b1 l -> least b2 l -> b1 == b2.
Proof.
  intros [I1 L1] [I2 L2]. apply Qle_antisym; auto.
Qed.

Lemma gt_true (a b : Q) : OptRightScan.gt a b = true <-> b < a.
Proof.
  unfold OptRightScan.gt. rewrite negb_true_iff.
  split; intro H.
  - apply Qnot_le_lt. intro L. apply Qle_bool_iff in L. congruence.
  - destruct (Qle_bool a b) eqn:E; [|reflexivity].
    apply Qle_bool_iff in E. exfalso. eapply Qlt_not_le; eauto.
Qed.

Lemma next_of_capped (P : OptRightScan.Params) (p : ExePath.t point Q) :
  (OptRightScan.max_iter P < Z.of_nat (length (ExePath.x p)))%Z ->
  next_of P p = None.
Proof.
  intro H. unfold next_of. apply Z.ltb_lt in H. now rewrite H.
Qed.

Lemma next_of_some (P : OptRightScan.Params) (p : ExePath.t point Q) (v : point) :
  next_of P p = Some v ->
  (Z.of_nat (length (ExePath.x p)) <= OptRightScan.max_iter P)%Z
  /\ v = match rev (ExePath.x p) with
         | [] => OptRightScan.init_x P
         | last_x :: _ => Pt (coord last_x + OptRightScan.x_grid_gap P)
         end.
Proof.
  unfold next_of.
  destruct (Z.ltb_spec (OptRightScan.max_iter P) (Z.of_nat (length (ExePath.x p))));
    [discriminate|].
  destruct (_ && _); [discriminate|].
  intro E. injection E as <-. split; [lia|reflexivity].
Qed.

Lemma last_cases {A : Type} (l : list A) :
  l = [] \/ exists front a, l = front ++ [a].
Proof.
  destruct l as [|b l]; [now left|right].
  destruct (@exists_last A (b :: l)) as [front [a E]]; [discriminate|].
  now exists front, a.
Qed.

Lemma not_risen_on_a_descent (f : point -> Q) (thresh : Q) (p : ExePath.t point Q) :
  never_rises f -> 0 <= thresh -> rightmost_last f p ->
  risen thresh (ExePath.y p) = false.
Proof.
  intros Hf Ht [Hy Hx]. destruct p as [xs ys]. simpl in *. subst ys.
  unfold risen.
  destruct (last_cases xs) as [->|[front [last_x ->]]]; [reflexivity|].
  rewrite map_app. simpl map. rewrite removelast_last, rev_unit.
  destruct (map f front) as [|a t] eqn:Em; [reflexivity|].
  destruct (OptRightScan.gt _ _) eqn:G; [|reflexivity].
  apply gt_true in G. exfalso.
  assert (Hlow : f last_x <= fold_left Qmin t a).
  { pose proof (fold_min_in t a) as I. rewrite <- Em in I.
    apply in_map_iff in I. destruct I as [b [<- Ib]].
    apply Hf. pose proof (Hx front last_x eq_refl) as F.
    rewrite Forall_forall in F. now apply F. }
  lra.
Qed.

Lemma rightmost_last_step (f : point -> Q) (P : OptRightScan.Params)
  (w : World OptRightScan.Params point Q) (v : point) :
  0 < OptRightScan.x_grid_gap P ->
  rightmost_last f (exe_path w) ->
  v = match rev (ExePath.x (exe_path w)) with
      | [] => OptRightScan.init_x P
      | last_x :: _ => Pt (coord last_x + OptRightScan.x_grid_gap P)
      end ->
  rightmost_last f (exe_path (advance f [v] w)).
Proof.
  intros Hgap [Hy Hx] Ev. split; simpl.
  - rewrite Hy, map_app. reflexivity.
  - intros front last_x E. apply app_inj_tail in E. destruct E as [<- <-].
    destruct (last_cases (ExePath.x (exe_path w))) as [E0|[front [l0 E0]]].
    + rewrite E0. constructor.
    + rewrite E0 in Ev |- *. rewrite rev_unit in Ev. subst v. simpl.
      apply Forall_app. split.
      * eapply Forall_impl; [|apply (Hx front l0 E0)].
        intros a Ha. simpl in Ha. lra.
      * constructor; [lra|constructor].
Qed.

Lemma OptRightScan_loop (f : point -> Q) :
  forall (fuel : nat) (w : World OptRightScan.Params point Q),
    paired (exe_path w) ->
    (OptRightScan.max_iter (self_params w)
     < Z.of_nat (length (ExePath.x (exe_path w))) + Z.of_nat fuel)%Z ->
    exists xs,
      bind OptRightScan.get_next_x
           (Runner.while_loop OptRightScan.get_next_x f fuel) w
      = (Ret tt, advance f xs w)
      /\ (Z.of_nat (length (ExePath.x (exe_path w) ++ xs))
          <= Z.max (Z.of_nat (length (ExePath.x (exe_path w))))
                   (OptRightScan.max_iter (self_params w) + 1))%Z
      /\ (next_of (self_params w) (exe_path w) <> None -> xs <> [])
      /\ (never_rises f ->
          0 < OptRightScan.x_grid_gap (self_params w) ->
          0 <= OptRightScan.conv_thresh (self_params w) ->
          rightmost_last f (exe_path w) ->
          (Z.of_nat (length (ExePath.x (exe_path w)))
           <= OptRightScan.max_iter (self_params w) + 1)%Z ->
          Z.of_nat (length (ExePath.x (exe_path w) ++ xs))
          = (OptRightScan.max_iter (self_params w) + 1)%Z).
Proof.
  induction fuel as [|fuel IH]; intros w Hp Hfuel.
  - exists []. unfold bind. rewrite OptRightScan_get_next_x_paired by assumption.
    rewrite next_of_capped by lia. simpl. rewrite advance_nil, app_nil_r.
    repeat split; try lia; congruence.
  - unfold bind at 1. rewrite OptRightScan_get_next_x_paired by assumption.
    destruct (next_of (self_params w) (exe_path w)) as [v|] eqn:En.
    + destruct (next_of_some _ _ En) as [Hle Ev].
      change (Runner.while_loop OptRightScan.get_next_x f (S fuel) (Some v) w)
        with (bind OptRightScan.get_next_x
                (Runner.while_loop OptRightScan.get_next_x f fuel)
                (advance f [v] w)).
      destruct (IH (advance f [v] w)) as [xs [Hrun [Hbound [_ Hfull]]]].
      * unfold paired in *. simpl. rewrite !length_app, Hp. reflexivity.
      * simpl. rewrite length_app. simpl. lia.
      * exists (v :: xs). rewrite Hrun, advance_cons.
        cbn [advance exe_path self_params ExePath.x] in Hbound, Hfull.
        rewrite !length_app in *. cbn [length] in *.
        repeat split; try congruence; try lia.
        intros Hf Hgap Ht Hr Hlen.
        rewrite <- Hfull; try assumption; try lia.
        eapply rightmost_last_step; eauto.
    + exists []. simpl. rewrite advance_nil, app_nil_r.
      repeat split; try lia; try congruence.
      intros Hf Hgap Ht Hr Hlen.
      unfold next_of in En.
      rewrite (not_risen_on_a_descent Hf Ht Hr), andb_false_r in En.
      destruct (Z.ltb_spec (OptRightScan.max_iter (self_params w))
                  (Z.of_nat (length (ExePath.x (exe_path w))))); [lia|discriminate].
Qed.

Lemma OptRightScan_run (f : point -> Q) (fuel : nat)
  (w : World OptRightScan.Params point Q) :
  (OptRightScan.max_iter (self_params w) < Z.of_nat fuel)%Z ->
  exists xs,
    OptRightScan.run_algorithm_on_f f fuel w
    = (match rev xs with
       | [] => Raise IndexError
       | out :: _ => Ret (ExePath.mk xs (map f xs), out)
       end, scanned f xs w)
    /\ (Z.of_nat (length xs)
        <= Z.max 0 (OptRightScan.max_iter (self_params w) + 1))%Z
    /\ ((0 <= OptRightScan.max_iter (self_params w))%Z -> xs <> [])
    /\ (never_rises f ->
        0 < OptRightScan.x_grid_gap (self_params w) ->
        0 <= OptRightScan.conv_thresh (self_params w) ->
        (0 <= OptRightScan.max_iter (self_params w) + 1)%Z ->
        Z.of_nat (length xs) = (OptRightScan.max_iter (self_params w) + 1)%Z).
Proof.
  intro Hfuel.
  set (w0 := mkWorld (self_params w) (ExePath.mk [] []) (f_calls w)
             : World OptRightScan.Params point Q).
  destruct (@OptRightScan_loop f fuel w0) as [xs [Hrun [Hbound [Hne Hfull]]]].
  - reflexivity.
  - simpl. lia.
  - exists xs. simpl in Hbound, Hne, Hfull.
    repeat split.
    + unfold OptRightScan.run_algorithm_on_f, Runner.run_algorithm_on_f,
        Runner.new_exe_path.
      unfold bind at 1. unfold modify at 1. fold w0.
      rewrite <- bind_assoc. unfold bind at 1. rewrite Hrun.
      unfold OptRightScan.get_output_from_exe_path. munfold. simpl.
      destruct (rev xs); reflexivity.
    + exact Hbound.
    + intro Hm. apply Hne. unfold next_of. simpl.
      destruct (Z.ltb_spec (OptRightScan.max_iter (self_params w)) 0);
        [lia|discriminate].
    + intros Hf Hgap Ht Hm. apply Hfull; try assumption.
      split; [reflexivity|].
      intros [|a front] last_x E; discriminate E.
Qed.

Lemma risen_spec (thresh y_first y_last : Q) (ys : list Q) :
  risen thresh (y_first :: ys ++ [y_last]) = true
  <-> exists best, least best (y_first :: ys) /\ best + thresh < y_last.
Proof.
  unfold risen.
  change (y_first :: ys ++ [y_last]) with ((y_first :: ys) ++ [y_last]).
  rewrite removelast_last, rev_unit, gt_true.
  split.
  - intro H. exists (fold_left Qmin ys y_first). split; [apply fold_min_least|exact H].
  - intros [best [Hl Hb]].
    pose proof (least_unique Hl (fold_min_least y_first ys)) as E.
    rewrite <- E. exact Hb.
Qed.

(** C3, as the code has it. On a path of paired inputs and outputs:
    with two pairs or more, [OptRightScan.get_next_x] returns the stop
    sentinel exactly when the most recent output exceeds the least of the
    other outputs plus the convergence threshold, or the length of the path
    exceeds [max_iter]; on the empty path it proposes the initial point,
    unless [max_iter] is negative, when it stops; on a path of one pair or
    more it stops or proposes the previous input plus the step gap. *)
Theorem OptRightScan_get_next_x_decides (w : World OptRightScan.Params point Q)
  (Hpaired : paired (exe_path w)) :
  (forall y_first ys y_last,
      ExePath.y (exe_path w) = y_first :: ys ++ [y_last] ->
      fst (OptRightScan.get_next_x w) = Ret None
      <-> ((exists best, least best (y_first :: ys)
                         /\ best + OptRightScan.conv_thresh (self_params w) < y_last)
           \/ (OptRightScan.max_iter (self_params w)
               < Z.of_nat (length (ExePath.x (exe_path w))))%Z))
  /\ (ExePath.x (exe_path w) = [] ->
      fst (OptRightScan.get_next_x w)
      = if (OptRightScan.max_iter (self_params w) <? 0)%Z then Ret None
        else Ret (Some (OptRightScan.init_x (self_params w))))
  /\ (forall xs x_prev,
        ExePath.x (exe_path w) = xs ++ [x_prev] ->
        fst (OptRightScan.get_next_x w) = Ret None
        \/ fst (OptRightScan.get_next_x w)
           = Ret (Some (Pt (coord x_prev
                            + OptRightScan.x_grid_gap (self_params w))))).
Proof.
  rewrite OptRightScan_get_next_x_paired by assumption. simpl fst.
  split; [|split].
  - intros y_first ys y_last Ey.
    assert (Hlen : (2 <=? length (ExePath.x (exe_path w)))%nat = true).
    { apply Nat.leb_le. rewrite Hpaired, Ey. simpl. rewrite length_app. simpl. lia. }
    rewrite <- risen_spec, <- Ey. unfold next_of. rewrite Hlen. simpl andb.
    destruct (Z.ltb_spec (OptRightScan.max_iter (self_params w))
                (Z.of_nat (length (ExePath.x (exe_path w))))) as [Hc|Hc].
    + split; auto.
    + destruct (risen _ _).
      * split; auto.
      * split; [discriminate|]. intros [H|H]; [discriminate|lia].
  - intro Ex. unfold next_of. rewrite Ex. simpl.
    destruct (_ <? _)%Z; reflexivity.
  - intros xs x_prev Ex. unfold next_of. rewrite Ex, rev_unit.
    destruct (_ <? _)%Z; [now left|].
    destruct (_ && _); [now left|now right].
Qed.

(** A path of three pairs whose last output, [5], exceeds [1 + 0.2]: the
    scan stops; the empty path under the cap [5]: the initial point. *)
Lemma OptRightScan_get_next_x_decides_witness :
  fst (OptRightScan.get_next_x
         (scan_world 5 (ExePath.mk [Pt 4.0; Pt 4.1; Pt 4.2] [3; 1; 5])))
  = Ret None
  /\ fst (OptRightScan.get_next_x (scan_world 5 (ExePath.mk [] [])))
     = Ret (Some (Pt 4.0)).
Proof.
  split.
  - apply (proj1 (@OptRightScan_get_next_x_decides
                    (scan_world 5 (ExePath.mk [Pt 4.0; Pt 4.1; Pt 4.2] [3; 1; 5]))
                    eq_refl) 3 [1] 5 eq_refl).
    left. exists 1. split.
    + split; [simpl; auto|].
      intros v [E|[E|[]]]; subst; unfold Qle; simpl; lia.
    + reflexivity.
  - apply (proj1 (proj2 (@OptRightScan_get_next_x_decides
                           (scan_world 5 (ExePath.mk [] [])) eq_refl)) eq_refl).
Defined.

(** With [max_iter = -1] the first call, on the empty path, answers the stop
    sentinel and not the initial point. *)
Lemma OptRightScan_get_next_x_negative_cap :
  length (ExePath.x (exe_path (scan_world (-1) (ExePath.mk [] [])))) = 0%nat
  /\ fst (OptRightScan.get_next_x (scan_world (-1) (ExePath.mk [] []))) = Ret None
  /\ fst (OptRightScan.get_next_x (scan_world (-1) (ExePath.mk [] [])))
     <> Ret (Some (OptRightScan.init_x
                     (self_params (scan_world (-1) (ExePath.mk [] []))))).
Proof.
  repeat split. discriminate.
Qed.

(** C2. With [max_iter = m >= 0], on every function [f]:
    [OptRightScan.get_next_x] answers the stop sentinel on every path longer
    than [m], whatever its outputs; the run completes within [m + 1]
    iterations of the loop and its path has at most [m + 1] points; and when
    [f] never rises to the right (a decreasing [f]), with a positive step and
    a threshold that is not negative, the path has [m + 1] points exactly:
    6 for [max_iter = 5]. *)
Theorem OptRightScan_run_stops_at_the_cap (f : point -> Q) (fuel : nat)
  (w : World OptRightScan.Params point Q)
  (Hcap : (0 <= OptRightScan.max_iter (self_params w))%Z)
  (Hfuel : (OptRightScan.max_iter (self_params w) < Z.of_nat fuel)%Z) :
  (forall w' : World OptRightScan.Params point Q,
      paired (exe_path w') ->
      (OptRightScan.max_iter (self_params w')
       < Z.of_nat (length (ExePath.x (exe_path w'))))%Z ->
      OptRightScan.get_next_x w' = (Ret None, w'))
  /\ exists path out,
       OptRightScan.run_algorithm_on_f f fuel w
       = (Ret (path, out), scanned f (ExePath.x path) w)
       /\ (Z.of_nat (length (ExePath.x path))
           <= OptRightScan.max_iter (self_params w) + 1)%Z
       /\ (never_rises f ->
           0 < OptRightScan.x_grid_gap (self_params w) ->
           0 <= OptRightScan.conv_thresh (self_params w) ->
           Z.of_nat (length (ExePath.x path))
           = (OptRightScan.max_iter (self_params w) + 1)%Z).
Proof.
  split.
  - intros w' Hp Hlen.
    rewrite OptRightScan_get_next_x_paired by assumption.
    now rewrite next_of_capped.
  - destruct (OptRightScan_run f fuel w Hfuel) as [xs [Hrun [Hbound [Hne Hfull]]]].
    destruct (rev xs) as [|out rx] eqn:Er.
    + exfalso. apply (Hne Hcap).
      apply (f_equal (@rev point)) in Er. now rewrite rev_involutive in Er.
    + exists (ExePath.mk xs (map f xs)), out. simpl.
      repeat split; [exact Hrun|lia|].
      intros Hf Hgap Ht. apply Hfull; try assumption. lia.
Qed.

(** [max_iter = 5] on the function [-x]: the path has 6 points; and a path
    of 6 pairs whose outputs have not risen is stopped by the cap. *)
Lemma OptRightScan_run_stops_at_the_cap_witness :
  (exists path out,
      OptRightScan.run_algorithm_on_f downhill 6 (scan_world 5 (ExePath.mk [] []))
      = (Ret (path, out),
         scanned downhill (ExePath.x path) (scan_world 5 (ExePath.mk [] [])))
      /\ length (ExePath.x path) = 6%nat)
  /\ OptRightScan.get_next_x
       (scan_world 5 (ExePath.mk [Pt 1; Pt 2; Pt 3; Pt 4; Pt 5; Pt 6]
                                 [6; 5; 4; 3; 2; 1]))
     = (Ret None,
        scan_world 5 (ExePath.mk [Pt 1; Pt 2; Pt 3; Pt 4; Pt 5; Pt 6]
                                 [6; 5; 4; 3; 2; 1])).
Proof.
  assert (H5 : (0 <= OptRightScan.max_iter
                       (self_params (scan_world 5 (ExePath.mk [] []))))%Z)
    by (simpl; lia).
  assert (H6 : (OptRightScan.max_iter
                  (self_params (scan_world 5 (ExePath.mk [] []))) < Z.of_nat 6)%Z)
    by (simpl; lia).
  destruct (@OptRightScan_run_stops_at_the_cap downhill 6
              (scan_world 5 (ExePath.mk [] [])) H5 H6)
    as [Hstop [path [out [Hrun [_ Hfull]]]]].
  split.
  - exists path, out. split; [exact Hrun|].
    assert (E : Z.of_nat (length (ExePath.x path)) = 6%Z).
    { apply Hfull.
      - intros a b Hab. unfold downhill. lra.
      - reflexivity.
      - discriminate. }
    lia.
  - apply Hstop.
    + reflexivity.
    + simpl. lia.
Defined.

(** C7. On every function [f]: when [max_iter >= 0] the run of
    [OptRightScan] returns a path that is not empty, and its output is the
    last input of this path, the last point queried; when [max_iter] is
    negative the path stays empty and [exe_path.x[-1]] raises IndexError:
    the run has no output. *)
Theorem OptRightScan_output_is_the_last_query (f : point -> Q) (fuel : nat)
  (w : World OptRightScan.Params point Q)
  (Hfuel : (OptRightScan.max_iter (self_params w) < Z.of_nat fuel)%Z) :
  ((0 <= OptRightScan.max_iter (self_params w))%Z ->
   exists front out,
     OptRightScan.run_algorithm_on_f f fuel w
     = (Ret (ExePath.mk (front ++ [out]) (map f (front ++ [out])), out),
        scanned f (front ++ [out]) w))
  /\ ((OptRightScan.max_iter (self_params w) < 0)%Z ->
      OptRightScan.run_algorithm_on_f f fuel w
      = (Raise IndexError, scanned f [] w)).
Proof.
  destruct (OptRightScan_run f fuel w Hfuel) as [xs [Hrun [Hbound [Hne _]]]].
  split; intro Hm.
  - destruct (last_cases xs) as [E|[front [out E]]]; [now elim (Hne Hm)|].
    exists front, out. rewrite Hrun, E, rev_unit. reflexivity.
  - destruct xs as [|a xs]; [exact Hrun|]. simpl length in Hbound. lia.
Qed.

(** [max_iter = 5] and [max_iter = -1] on the function [-x]. *)
Lemma OptRightScan_output_is_the_last_query_witness :
  (exists front out,
      OptRightScan.run_algorithm_on_f downhill 6 (scan_world 5 (ExePath.mk [] []))
      = (Ret (ExePath.mk (front ++ [out]) (map downhill (front ++ [out])), out),
         scanned downhill (front ++ [out]) (scan_world 5 (ExePath.mk [] []))))
  /\ OptRightScan.run_algorithm_on_f downhill 0 (scan_world (-1) (ExePath.mk [] []))
     = (Raise IndexError, scanned downhill [] (scan_world (-1) (ExePath.mk [] []))).
Proof.
  split.
  - apply (@OptRightScan_output_is_the_last_query downhill 6
             (scan_world 5 (ExePath.mk [] []))); simpl; lia.
  - apply (@OptRightScan_output_is_the_last_query downhill 0
             (scan_world (-1) (ExePath.mk [] []))); simpl; lia.
Defined.

(** ** Methods that only read *)

Lemma reader_ret {S A : Type} (a : A) : reader (@ret S A a).
Proof. intro s. reflexivity. Qed.

Lemma reader_gets {S A : Type} (g : S -> A) : reader (gets g).
Proof. intro s. reflexivity. Qed.

Lemma reader_raise {S A : Type} (e : exn) : reader (@raise S A e).
Proof. intro s. reflexivity. Qed.

Lemma reader_bind {S A B : Type} (m : M S A) (k : A -> M S B) :
  reader m -> (forall a, reader (k a)) -> reader (bind m k).
Proof.
  intros Hm Hk s. unfold bind. specialize (Hm s).
  destruct (m s) as [[a|e|] s']; simpl in Hm; subst s'; [apply Hk|reflexivity..].
Qed.

Lemma reader_if {S A : Type} (c : bool) (m1 m2 : M S A) :
  reader m1 -> reader m2 -> reader (if c then m1 else m2).
Proof. destruct c; auto. Qed.

Lemma reader_index {S A : Type} (l : list A) (i : nat) : reader (@index S A l i).
Proof. unfold index. destruct (nth_error l i); intro s; reflexivity. Qed.

Lemma reader_index_last {S A : Type} (l : list A) : reader (@index_last S A l).
Proof. unfold index_last. destruct (rev l); intro s; reflexivity. Qed.

Lemma reader_np_min {S : Type} (l : list Q) : reader (@np.min S l).
Proof. destruct l; intro s; reflexivity. Qed.

Lemma reader_repeatable {S A : Type} (m : M S A) : reader m -> repeatable m.
Proof.
  intros Hm s. pose proof (Hm s) as H1.
  destruct (m s) as [r1 s1] eqn:E1. simpl in H1. subst s1.
  rewrite E1. auto.
Qed.

Create HintDb readers.
#[local] Hint Resolve reader_ret reader_gets reader_raise reader_index
  reader_index_last reader_np_min : readers.

Ltac reads :=
  repeat first
    [ apply reader_bind; [|intro]
    | apply reader_if
    | solve [auto with readers] ].

Lemma LinearScan_get_next_x_reads {X Y : Type} :
  reader (@LinearScan.get_next_x X Y).
Proof. unfold LinearScan.get_next_x. reads. Qed.

Lemma AverageOutputs_get_next_x_reads {X : Type} :
  reader (@AverageOutputs.get_next_x X).
Proof. unfold AverageOutputs.get_next_x. reads. Qed.

Lemma OptRightScan_get_next_x_reads : reader OptRightScan.get_next_x.
Proof. unfold OptRightScan.get_next_x. reads. Qed.

(** C8. For each of [LinearScan], [LinearScanRandGap], [AverageOutputs] and
    [OptRightScan], and every state of the parameters and of the path (a
    path on which the method raises an exception too): two calls of
    [get_next_x] in a row give the same answer, and after each of them the
    path and the parameters are what they were before. *)
Theorem get_next_x_is_repeatable :
  (forall X Y : Type, repeatable (@LinearScan.get_next_x X Y))
  /\ (forall Y : Type, repeatable (@LinearScanRandGap.get_next_x Y))
  /\ (forall X : Type, repeatable (@AverageOutputs.get_next_x X))
  /\ repeatable OptRightScan.get_next_x.
Proof.
  repeat split; intros; apply reader_repeatable.
  - apply LinearScan_get_next_x_reads.
  - apply LinearScan_get_next_x_reads.
  - apply AverageOutputs_get_next_x_reads.
  - apply OptRightScan_get_next_x_reads.
Qed.

(** ** The path, step after step *)

Lemma bind_ret_r {S A : Type} (m : M S A) (s : S) : bind m ret s = m s.
Proof. unfold bind, ret. destruct (m s) as [[a|e|] s']; reflexivity. Qed.

Lemma bind_ext {S A B : Type} (m : M S A) (k1 k2 : A -> M S B) (s : S) :
  (forall a s', k1 a s' = k2 a s') -> bind m k1 s = bind m k2 s.
Proof.
  intro H. unfold bind. destruct (m s) as [[a|e|] s']; [apply H|reflexivity..].
Qed.

Section Steps.
Context {P X Y Out : Type}.
Variable get_next_x : M (World P X Y) (option X).
Variable get_output_from_exe_path : M (World P X Y) Out.
Variable f : X -> Y.
Hypothesis get_next_x_reads : reader get_next_x.
Hypothesis get_output_reads : reader get_output_from_exe_path.

Lemma loop_prefix_succ (n : nat) :
  forall (x : option X) (w : World P X Y),
    Runner.loop_prefix get_next_x f (S n) x w
    = bind (Runner.loop_prefix get_next_x f n x) (one_more get_next_x f) w.
Proof.
  induction n as [|n IH]; intros [x'|] w; try reflexivity.
  - simpl. unfold bind at 2. unfold ret at 2. simpl. apply bind_ret_r.
  - change (Runner.loop_prefix get_next_x f (S (S n)) (Some x') w)
      with (bind (Runner.loop_body get_next_x f x')
                 (Runner.loop_prefix get_next_x f (S n)) w).
    change (Runner.loop_prefix get_next_x f (S n) (Some x'))
      with (bind (Runner.loop_body get_next_x f x')
                 (Runner.loop_prefix get_next_x f n)).
    rewrite bind_assoc. apply bind_ext. intros a s'. apply IH.
Qed.

Lemma run_prefix_succ (n : nat) (w : World P X Y) :
  Runner.run_prefix get_next_x f (S n) w
  = bind (Runner.run_prefix get_next_x f n) (one_more get_next_x f) w.
Proof.
  unfold Runner.run_prefix.
  rewrite !bind_assoc. apply bind_ext. intros [] s.
  rewrite bind_assoc. apply bind_ext. intros x s'. apply loop_prefix_succ.
Qed.

Lemma one_more_state (x : option X) (w : World P X Y) :
  snd (one_more get_next_x f x w) = match x with
                       | Some x' => advance f [x'] w
                       | None => w
                       end.
Proof.
  destruct x as [x'|]; [|reflexivity].
  unfold one_more, Runner.loop_body, Runner.call_f, Runner.append_x, Runner.append_y.
  unfold bind, modify. simpl. apply get_next_x_reads.
Qed.

Lemma run_prefix_step (n : nat) (w : World P X Y) :
  snd (Runner.run_prefix get_next_x f (S n) w)
  = snd (Runner.run_prefix get_next_x f n w)
  \/ exists x,
       snd (Runner.run_prefix get_next_x f (S n) w)
       = advance f [x] (snd (Runner.run_prefix get_next_x f n w)).
Proof.
  rewrite run_prefix_succ. unfold bind.
  destruct (Runner.run_prefix get_next_x f n w) as [[[x|]|e|] s]; simpl; auto.
  right. exists x. apply (one_more_state (Some x)).
Qed.

Lemma run_prefix_start (w : World P X Y) :
  exe_path (snd (Runner.run_prefix get_next_x f 0 w)) = ExePath.mk [] [].
Proof.
  unfold Runner.run_prefix, Runner.new_exe_path.
  unfold bind at 1. unfold modify.
  set (w0 := mkWorld (self_params w) (ExePath.mk [] []) (f_calls w)).
  unfold bind. pose proof (get_next_x_reads w0) as E.
  destruct (get_next_x w0) as [[x|e|] s]; simpl in E; subst s; reflexivity.
Qed.

Lemma run_prefix_paired (n : nat) (w : World P X Y) :
  paired (exe_path (snd (Runner.run_prefix get_next_x f n w))).
Proof.
  induction n as [|n IH].
  - rewrite run_prefix_start. reflexivity.
  - destruct (run_prefix_step n w) as [E|[x E]]; rewrite E; [exact IH|].
    unfold paired in *. simpl. rewrite !length_app, IH. reflexivity.
Qed.

Lemma while_loop_prefix (fuel : nat) :
  forall (x : option X) (w w' : World P X Y),
    Runner.while_loop get_next_x f fuel x w = (Ret tt, w') ->
    Runner.loop_prefix get_next_x f fuel x w = (Ret None, w').
Proof.
  induction fuel as [|fuel IH]; intros [x'|] w w' H.
  - discriminate H.
  - injection H as <-. reflexivity.
  - change (Runner.while_loop get_next_x f (S fuel) (Some x') w)
      with (bind (Runner.loop_body get_next_x f x')
                 (Runner.while_loop get_next_x f fuel) w) in H.
    change (Runner.loop_prefix get_next_x f (S fuel) (Some x') w)
      with (bind (Runner.loop_body get_next_x f x')
                 (Runner.loop_prefix get_next_x f fuel) w).
    unfold bind in *.
    destruct (Runner.loop_body get_next_x f x' w) as [[x''|e|] w1];
      try discriminate H.
    apply IH, H.
  - injection H as <-. reflexivity.
Qed.

Lemma run_prefix_reaches_the_run (fuel : nat) (path : ExePath.t X Y) (out : Out)
  (w w' : World P X Y) :
  Runner.run_algorithm_on_f get_next_x get_output_from_exe_path f fuel w
  = (Ret (path, out), w') ->
  exe_path (snd (Runner.run_prefix get_next_x f fuel w)) = path.
Proof.
  unfold Runner.run_algorithm_on_f, Runner.run_prefix, Runner.new_exe_path.
  unfold bind at 1 6. unfold modify.
  set (w0 := mkWorld (self_params w) (ExePath.mk [] []) (f_calls w)).
  unfold bind at 1 5.
  destruct (get_next_x w0) as [[x|e|] w1]; try discriminate.
  unfold bind at 1.
  destruct (Runner.while_loop get_next_x f fuel x w1) as [[[]|e|] w2] eqn:Ew;
    try discriminate.
  rewrite (@while_loop_prefix fuel x w1 w2 Ew).
  unfold bind at 1. pose proof (get_output_reads w2) as Ho.
  destruct (get_output_from_exe_path w2) as [[o|e|] w3]; try discriminate.
  simpl in Ho. subst w3. unfold bind, gets, ret. intro H. now inversion H.
Qed.

Lemma run_prefix_append_only (w : World P X Y) :
  append_only f (Runner.run_algorithm_on_f get_next_x get_output_from_exe_path f)
              (Runner.run_prefix get_next_x f) w.
Proof.
  split; [apply run_prefix_start|split].
  - intro n. split; [apply run_prefix_paired|].
    destruct (run_prefix_step n w) as [E|[x E]]; rewrite E; [now left|].
    right. exists x. reflexivity.
  - intros fuel path out w'. apply run_prefix_reaches_the_run.
Qed.

End Steps.

(** ** The resampled grid of LinearScanRandGap *)

Lemma fold_max_in (t : list Q) : forall a, In (fold_left Qmax t a) (a :: t).
Proof.
  induction t as [|b t IH]; intro a; simpl.
  - now left.
  - destruct (IH (Qmax a b)) as [E|I].
    + rewrite <- E. unfold Qmax, GenericMinMax.gmax.
      destruct (a ?= b); auto.
    + auto.
Qed.

Lemma fold_max_ge_start (t : list Q) : forall a, a <= fold_left Qmax t a.
Proof.
  induction t as [|b t IH]; intro a; simpl.
  - apply Qle_refl.
  - eapply Qle_trans; [apply Q.le_max_l|apply IH].
Qed.

Lemma fold_max_upper (t : list Q) :
  forall a v, In v (a :: t) -> v <= fold_left Qmax t a.
Proof.
  induction t as [|b t IH]; intros a v [E|I]; simpl.
  - subst. apply Qle_refl.
  - destruct I.
  - subst. apply (fold_max_ge_start (b :: t)).
  - destruct I as [E|I].
    + subst. eapply Qle_trans; [apply Q.le_max_r|apply fold_max_ge_start].
    + apply IH. now right.
Qed.

Lemma fold_max_greatest (a : Q) (t : list Q) :
  greatest (fold_left Qmax t a) (a :: t).
Proof. split; [apply fold_max_in|apply fold_max_upper]. Qed.

Lemma greatest_unique (l : list Q) (b1 b2 : Q) :
  greatest b1 l -> greatest b2 l -> b1 == b2.
Proof.
  intros [I1 L1] [I2 L2]. apply Qle_antisym; auto.
Qed.

Lemma ceil_range (n : Z) :
  (1 <= n)%Z ->
  (1 <= np.ceil ((1 - 0.2) * inject_Z n) <= n)%Z
  /\ (n < np.ceil ((1 + 0.2) * inject_Z n))%Z
  /\ ((2 <= n)%Z -> (2 <= np.ceil ((1 - 0.2) * inject_Z n))%Z).
Proof.
  intro Hn. unfold np.ceil.
  assert (Hq : 1 <= inject_Z n) by (rewrite Zle_Qle in Hn; exact Hn).
  clear Hn.
  pose proof (Qle_ceiling ((1 - 0.2) * inject_Z n)) as Hlow.
  pose proof (Qle_ceiling ((1 + 0.2) * inject_Z n)) as Hhigh.
  repeat split.
  - assert (H : (0 < Qceiling ((1 - 0.2) * inject_Z n))%Z)
      by (rewrite Zlt_Qlt; change (inject_Z 0) with 0; lra).
    lia.
  - rewrite <- (Qceiling_Z n) at 2. apply Qceiling_resp_le. lra.
  - rewrite Zlt_Qlt. lra.
  - intro H2. rewrite Zle_Qle in H2. change (inject_Z 2) with 2 in H2.
    assert (H : (1 < Qceiling ((1 - 0.2) * inject_Z n))%Z)
      by (rewrite Zlt_Qlt; change (inject_Z 1) with 1; lra).
    lia.
Qed.

Lemma in_removelast {A : Type} (a : A) (l : list A) :
  In a (removelast l) -> In a l.
Proof.
  induction l as [|b l IH]; [auto|].
  destruct l as [|c l]; [intros []|].
  change (removelast (b :: c :: l)) with (b :: removelast (c :: l)).
  intros [E|I]; [now left|right; now apply IH].
Qed.

Lemma linspace_samples (start stop : Q) (num : Z) (S : Type) (s : S) :
  start <= stop -> (1 <= num)%Z ->
  exists samples,
    np.linspace start stop num s = (Ret samples, s)
    /\ length samples = Z.to_nat num
    /\ (forall v, In v samples -> start <= v <= stop)
    /\ (exists v, In v samples /\ v == start)
    /\ ((2 <= num)%Z -> In stop samples)
    /\ (num = 1%Z -> forall v, In v samples -> v == start).
Proof.
  intros Hle Hnum. unfold np.linspace.
  destruct (Z.ltb_spec num 0) as [H0|_]; [lia|].
  eexists. split; [reflexivity|].
  destruct (Z.ltb_spec 1 num) as [H2|H1].
  - destruct (Z.ltb_spec 0 (num - 1)) as [_|Hd]; [|lia].
    set (step := (stop - start) / inject_Z (num - 1)).
    assert (Hdiv : 0 < inject_Z (num - 1))
      by (change 0 with (inject_Z 0); rewrite <- Zlt_Qlt; lia).
    assert (Hstep : 0 <= step).
    { unfold step, Qdiv. apply Qmult_le_0_compat; [lra|].
      apply Qlt_le_weak, Qinv_lt_0_compat, Hdiv. }
    assert (Hfull : inject_Z (num - 1) * step == stop - start).
    { unfold step. apply Qmult_div_r. lra. }
    destruct (Z.to_nat num) as [|[|m]] eqn:En; try lia.
    repeat split.
    + rewrite length_app, removelast_firstn_len, length_firstn.
      rewrite !length_map, length_seq. simpl. lia.
    + apply in_app_or in H. destruct H as [H|[<-|[]]]; [|lra].
      apply in_removelast, in_map_iff in H. destruct H as [i [<- Hi]].
      apply in_map_iff in Hi. destruct Hi as [k [<- Hk]].
      assert (0 <= inject_Z (Z.of_nat k))
        by (change 0 with (inject_Z 0); rewrite <- Zle_Qle; lia).
      nra.
    + apply in_app_or in H. destruct H as [H|[<-|[]]]; [|lra].
      apply in_removelast, in_map_iff in H. destruct H as [i [<- Hi]].
      apply in_map_iff in Hi. destruct Hi as [k [<- Hk]].
      apply in_seq in Hk.
      assert (inject_Z (Z.of_nat k) <= inject_Z (num - 1))
        by (rewrite <- Zle_Qle; lia).
      nra.
    + exists (inject_Z (Z.of_nat 0) * step + start). split.
      * apply in_or_app. left. simpl. now left.
      * simpl. ring.
    + intros _. apply in_or_app. right. now left.
    + intro E. lia.
  - assert (num = 1%Z) by lia. subst num. simpl.
    repeat split.
    + destruct H as [<-|[]]. ring_simplify. apply Qle_refl.
    + destruct H as [<-|[]]. ring_simplify. exact Hle.
    + eexists. split; [now left|]. ring.
    + intro. lia.
    + intros _ v [<-|[]]. ring.
Qed.

(** Every integer of [[low, high)] is the answer of [randint] to some
    draw. *)
Lemma random_randint_covers_the_range (low high k : Z) (S : Type) (s : S) :
  (low <= k < high)%Z ->
  exists draw, np.random_randint low high draw s = (Ret k, s).
Proof.
  intro H. exists (k - low)%Z. unfold np.random_randint.
  destruct (Z.ltb_spec low high); [|lia].
  rewrite Z.mod_small by lia. unfold ret. f_equal. f_equal. lia.
Qed.

Lemma map_coord_Pt (l : list Q) : map coord (map Pt l) = l.
Proof. induction l as [|a l IH]; simpl; congruence. Qed.

Lemma resample_grid {Y : Type} (draw : Z)
  (w : World (LinearScan.Params point) point Y) (orig : list point) :
  LinearScan.x_path_orig (self_params w) = Some orig ->
  orig <> [] ->
  exists grid,
    LinearScanRandGap.resample draw w
    = (Ret tt,
       mkWorld (LinearScan.mkParams (LinearScan.name (self_params w)) grid (Some orig))
               (exe_path w) (f_calls w))
    /\ (np.ceil (0.8 * inject_Z (Z.of_nat (length orig)))
        <= Z.of_nat (length grid)
        < np.ceil (1.2 * inject_Z (Z.of_nat (length orig))))%Z
    /\ (forall a b, least a (map coord grid) -> least b (map coord orig) -> a == b)
    /\ (forall a b, greatest a (map coord grid) -> greatest b (map coord orig)
                    -> a == b).
Proof.
  intros Horig Hne.
  destruct orig as [|p ps]; [congruence|clear Hne].
  set (n := Z.of_nat (length (p :: ps))).
  assert (Hn : (1 <= n)%Z) by (unfold n; simpl length; lia).
  destruct (ceil_range Hn) as [[Hc1 Hc1n] [Hc2 Hc12]].
  set (min_gap := np.ceil ((1 - 0.2) * inject_Z n)) in *.
  set (max_gap := np.ceil ((1 + 0.2) * inject_Z n)) in *.
  set (k := (min_gap + draw mod (max_gap - min_gap))%Z).
  assert (Hk : (min_gap <= k < max_gap)%Z).
  { unfold k. pose proof (Z.mod_pos_bound draw (max_gap - min_gap)). lia. }
  set (lo := fold_left Qmin (map coord ps) (coord p)).
  set (hi := fold_left Qmax (map coord ps) (coord p)).
  assert (Hlohi : lo <= hi).
  { apply Qle_trans with (coord p);
      [apply fold_min_le_start|apply fold_max_ge_start]. }
  assert (Hk1 : (1 <= k)%Z) by lia.
  destruct (linspace_samples w Hlohi Hk1)
    as [samples [Hrun [Hlen [Hin [[v0 [Hv0 Ev0]] [Hstop Hone]]]]]].
  exists (map Pt samples). split; [|split; [|split]].
  - unfold LinearScanRandGap.resample. munfold. rewrite Horig.
    cbn [map]. fold n. fold min_gap. fold max_gap.
    unfold np.random_randint.
    destruct (Z.ltb_spec min_gap max_gap) as [_|H]; [|lia].
    unfold ret. fold k. cbn [np.min np.max]. unfold ret.
    fold lo. fold hi. rewrite Hrun. rewrite Horig. reflexivity.
  - rewrite length_map, Hlen, Z2Nat.id by lia.
    replace (np.ceil (0.8 * inject_Z (Z.of_nat (length (p :: ps))))) with min_gap
      by (apply Qceiling_comp; fold n; ring).
    replace (np.ceil (1.2 * inject_Z (Z.of_nat (length (p :: ps))))) with max_gap
      by (apply Qceiling_comp; fold n; ring).
    exact Hk.
  - intros a b [Ia La] Hb. rewrite map_coord_Pt in Ia, La.
    rewrite (least_unique Hb (fold_min_least (coord p) (map coord ps))).
    fold lo. apply Qle_antisym.
    + rewrite <- Ev0. now apply La.
    + now apply Hin.
  - intros a b [Ia La] Hb. rewrite map_coord_Pt in Ia, La.
    rewrite (greatest_unique Hb (fold_max_greatest (coord p) (map coord ps))).
    fold hi. apply Qle_antisym; [now apply Hin|].
    destruct (Z.le_gt_cases 2 k) as [H2|H2].
    + apply La, Hstop, H2.
    + assert (E1 : k = 1%Z) by lia.
      assert (En : n = 1%Z) by lia.
      destruct ps as [|p' ps]; [|unfold n in En; simpl length in En; lia].
      rewrite (Hone E1 a Ia). unfold lo, hi. simpl. apply Qle_refl.
Qed.

Lemma LinearScanRandGap_run_on {Y : Type} (f : point -> Y) (draw : Z) (fuel : nat)
  (w w1 : World (LinearScan.Params point) point Y) :
  LinearScanRandGap.resample draw w = (Ret tt, w1) ->
  LinearScanRandGap.run_algorithm_on_f f draw fuel w
  = if (length (LinearScan.x_path (self_params w1)) <=? fuel)%nat
    then (Ret (ExePath.mk (LinearScan.x_path (self_params w1))
                          (map f (LinearScan.x_path (self_params w1))),
               map f (LinearScan.x_path (self_params w1))),
          scanned f (LinearScan.x_path (self_params w1)) w1)
    else (OutOfFuel,
          scanned f (firstn fuel (LinearScan.x_path (self_params w1))) w1).
Proof.
  intro Hr. unfold LinearScanRandGap.run_algorithm_on_f. unfold bind. rewrite Hr.
  unfold LinearScan.run_algorithm_on_f.
  apply grid_run with (grid_of := @LinearScan.x_path point) (out_of := fun ys => ys).
  - apply LinearScan_get_next_x_walk.
  - reflexivity.
Qed.

(** An empty original grid: [randint] is handed the empty range [[0, 0)]
    and the run ends there, on ValueError. *)
Lemma LinearScanRandGap_empty_grid_raises {Y : Type} (f : point -> Y)
  (draw : Z) (fuel : nat) (w : World (LinearScan.Params point) point Y) :
  LinearScan.x_path_orig (self_params w) = Some [] ->
  LinearScanRandGap.run_algorithm_on_f f draw fuel w = (Raise ValueError, w).
Proof.
  intro Horig.
  unfold LinearScanRandGap.run_algorithm_on_f, LinearScanRandGap.resample.
  munfold. rewrite Horig. reflexivity.
Qed.

(** C5. A run of [LinearScanRandGap], whatever the generator draws. On
    an instance whose original grid [orig] has [n >= 1] points, the grid the
    run scans, left in [params.x_path], has a number of points in
    [[ceil(0.8 n), ceil(1.2 n))], its least coordinate is the least one of
    [orig] and its greatest coordinate the greatest one of [orig]; with
    enough fuel the run returns the scan of this grid. On an empty original
    grid the range is empty and the run raises ValueError before it has a
    grid; with no snapshot at all it raises AttributeError. *)
Theorem LinearScanRandGap_resamples_within_bounds {Y : Type}
  (f : point -> Y) (draw : Z) (fuel : nat)
  (w : World (LinearScan.Params point) point Y) :
  match LinearScan.x_path_orig (self_params w) with
  | None =>
      LinearScanRandGap.run_algorithm_on_f f draw fuel w = (Raise AttributeError, w)
  | Some [] =>
      LinearScanRandGap.run_algorithm_on_f f draw fuel w = (Raise ValueError, w)
  | Some orig =>
      exists grid,
        LinearScan.x_path
          (self_params (snd (LinearScanRandGap.run_algorithm_on_f f draw fuel w)))
        = grid
        /\ ((length grid <= fuel)%nat ->
            fst (LinearScanRandGap.run_algorithm_on_f f draw fuel w)
            = Ret (ExePath.mk grid (map f grid), map f grid))
        /\ (np.ceil (0.8 * inject_Z (Z.of_nat (length orig)))
            <= Z.of_nat (length grid)
            < np.ceil (1.2 * inject_Z (Z.of_nat (length orig))))%Z
        /\ (forall a b, least a (map coord grid) -> least b (map coord orig)
                        -> a == b)
        /\ (forall a b, greatest a (map coord grid) -> greatest b (map coord orig)
                        -> a == b)
  end.
Proof.
  destruct (LinearScan.x_path_orig (self_params w)) as [[|p ps]|] eqn:Horig.
  - now apply LinearScanRandGap_empty_grid_raises.
  - destruct (@resample_grid Y draw w (p :: ps) Horig)
      as [grid [Hr [Hsize [Hmin Hmax]]]]; [discriminate|].
    exists grid. rewrite (@LinearScanRandGap_run_on Y f draw fuel w _ Hr).
    cbn [self_params LinearScan.x_path].
    repeat split; try assumption; try apply Hsize.
    + destruct (length grid <=? fuel)%nat; reflexivity.
    + intro Hfuel. apply Nat.leb_le in Hfuel. rewrite Hfuel. reflexivity.
  - unfold LinearScanRandGap.run_algorithm_on_f, LinearScanRandGap.resample.
    munfold. rewrite Horig. reflexivity.
Qed.

(** The original grid [1, 3, 2, 7, 0], whose coordinates span [0, 7], the
    draw [1] and fuel for 10 steps: a grid of 4 or 5 points. *)
Lemma LinearScanRandGap_resamples_within_bounds_witness :
  exists grid,
    LinearScan.x_path
      (self_params
         (snd (LinearScanRandGap.run_algorithm_on_f coord 1 10
                 (gap_world [] [Pt 1; Pt 3; Pt 2; Pt 7; Pt 0]))))
    = grid
    /\ (4 <= Z.of_nat (length grid) < 6)%Z
    /\ (forall a, least a (map coord grid) -> a == 0)
    /\ (forall a, greatest a (map coord grid) -> a == 7).
Proof.
  destruct (@LinearScanRandGap_resamples_within_bounds Q coord 1 10
              (gap_world [] [Pt 1; Pt 3; Pt 2; Pt 7; Pt 0]))
    as [grid [Hgrid [_ [Hsize [Hmin Hmax]]]]].
  exists grid. repeat split.
  - exact Hgrid.
  - apply Hsize.
  - apply Hsize.
  - intros a Ha. apply (Hmin a 0 Ha). split.
    + simpl. auto 6.
    + intros v [E|[E|[E|[E|[E|[]]]]]]; subst v; discriminate.
  - intros a Ha. apply (Hmax a 7 Ha). split.
    + simpl. auto 6.
    + intros v [E|[E|[E|[E|[E|[]]]]]]; subst v; discriminate.
Defined.

Lemma resample_ignores_x_path {Y : Type} (draw : Z) (grid : list point)
  (w : World (LinearScan.Params point) point Y) :
  LinearScanRandGap.resample draw (with_x_path grid w)
  = match LinearScanRandGap.resample draw w with
    | (Ret tt, w1) => (Ret tt, w1)
    | (Raise e, _) => (Raise e, with_x_path grid w)
    | (OutOfFuel, _) => (OutOfFuel, with_x_path grid w)
    end.
Proof.
  unfold LinearScanRandGap.resample, with_x_path. munfold.
  cbn [self_params LinearScan.x_path_orig].
  destruct (LinearScan.x_path_orig (self_params w)) as [orig|] eqn:Eo; [|reflexivity].
  unfold np.random_randint. destruct (_ <? _)%Z; [|reflexivity].
  unfold ret. destruct orig as [|p ps]; [reflexivity|].
  cbn [map np.min np.max]. unfold np.linspace.
  destruct (_ <? 0)%Z; unfold ret; cbv beta iota;
    cbn [self_params LinearScan.name LinearScan.x_path_orig exe_path f_calls];
    rewrite ?Eo; reflexivity.
Qed.

Lemma resample_keeps_the_snapshot {Y : Type} (draw : Z)
  (w : World (LinearScan.Params point) point Y) :
  LinearScan.x_path_orig (self_params (snd (LinearScanRandGap.resample draw w)))
  = LinearScan.x_path_orig (self_params w).
Proof.
  unfold LinearScanRandGap.resample. munfold.
  destruct (LinearScan.x_path_orig (self_params w)) as [orig|] eqn:Eo;
    [|simpl; now rewrite Eo].
  unfold np.random_randint. destruct (_ <? _)%Z; [|simpl; now rewrite Eo].
  unfold ret. destruct orig as [|p ps]; [simpl; now rewrite Eo|].
  cbn [map np.min np.max]. unfold np.linspace.
  destruct (_ <? 0)%Z; simpl; now rewrite Eo.
Qed.

Lemma LinearScan_run_keeps_params {X Y : Type} (f : X -> Y) (fuel : nat)
  (w : World (LinearScan.Params X) X Y) :
  self_params (snd (LinearScan.run_algorithm_on_f f fuel w)) = self_params w.
Proof.
  unfold LinearScan.run_algorithm_on_f.
  rewrite grid_run with (grid_of := @LinearScan.x_path X) (out_of := fun ys => ys)
    by (reflexivity || apply LinearScan_get_next_x_walk).
  destruct (_ <=? _)%nat; reflexivity.
Qed.

Lemma LinearScanRandGap_run_keeps_the_snapshot {Y : Type} (f : point -> Y)
  (draw : Z) (fuel : nat) (w : World (LinearScan.Params point) point Y) :
  LinearScan.x_path_orig
    (self_params (snd (LinearScanRandGap.run_algorithm_on_f f draw fuel w)))
  = LinearScan.x_path_orig (self_params w).
Proof.
  rewrite <- (resample_keeps_the_snapshot draw w).
  unfold LinearScanRandGap.run_algorithm_on_f, bind.
  destruct (LinearScanRandGap.resample draw w) as [[[]|e|] w1]; try reflexivity.
  simpl snd at 2. now rewrite LinearScan_run_keeps_params.
Qed.

Lemma set_params_shape {Y : Type} (params : LinearScan.Config point)
  (w : World (LinearScan.Params point) point Y) :
  exists name grid,
    LinearScan.set_params params w
    = (Ret tt, mkWorld (LinearScan.mkParams name grid None) (exe_path w) (f_calls w))
    /\ name = LinearScan.getattr (LinearScan.cfg_name params) "LinearScan"%string
    /\ (forall g, LinearScan.cfg_x_path params = Some g -> grid = g)
    /\ (LinearScan.cfg_x_path params = None -> length grid = 100%nat).
Proof.
  unfold LinearScan.set_params, dict_to_namespace. unfold bind.
  destruct (@linspace_samples 3.5 20 100 _ w) as [samples [Hrun [Hlen _]]];
    [discriminate|lia|].
  rewrite Hrun. unfold modify. do 2 eexists. split; [reflexivity|].
  split; [reflexivity|]. split.
  - intros g E. rewrite E. reflexivity.
  - intro E. rewrite E. simpl. rewrite length_map, Hlen. reflexivity.
Qed.

Lemma init_takes_the_snapshot {Y : Type} (params : LinearScan.Config point)
  (w : World (LinearScan.Params point) point Y) :
  exists name grid,
    LinearScanRandGap.__init__ params w
    = (Ret tt,
       mkWorld (LinearScan.mkParams name grid (Some grid)) (exe_path w) (f_calls w)).
Proof.
  destruct (set_params_shape params w) as [name [grid [E _]]].
  exists name, grid. unfold LinearScanRandGap.__init__, LinearScan.__init__.
  unfold bind at 1.
  rewrite E. reflexivity.
Qed.

(** C10. Runs of [LinearScanRandGap], any number of them and whatever
    their functions, draws and outcomes, leave [params.x_path_orig] as it
    was; on an instance just constructed it is the configured grid. The
    grid a run leaves in [params.x_path] served that run only: the outcome
    of a run does not depend on it. *)
Theorem LinearScanRandGap_keeps_the_original_grid {Y : Type}
  (runs : list ((point -> Y) * Z * nat))
  (w : World (LinearScan.Params point) point Y) :
  LinearScan.x_path_orig (self_params (LinearScanRandGap.run_many runs w))
  = LinearScan.x_path_orig (self_params w)
  /\ (forall params : LinearScan.Config point,
        LinearScan.x_path_orig
          (self_params
             (LinearScanRandGap.run_many runs
                (snd (LinearScanRandGap.__init__ params w))))
        = Some (LinearScan.x_path
                  (self_params (snd (LinearScanRandGap.__init__ params w)))))
  /\ (forall (f : point -> Y) (draw : Z) (fuel : nat) (grid : list point),
        fst (LinearScanRandGap.run_algorithm_on_f f draw fuel (with_x_path grid w))
        = fst (LinearScanRandGap.run_algorithm_on_f f draw fuel w)).
Proof.
  assert (Hmany : forall w0 : World (LinearScan.Params point) point Y,
             LinearScan.x_path_orig
               (self_params (LinearScanRandGap.run_many runs w0))
             = LinearScan.x_path_orig (self_params w0)).
  { induction runs as [|[[f draw] fuel] runs IH]; intro w0; [reflexivity|].
    simpl. rewrite IH. apply LinearScanRandGap_run_keeps_the_snapshot. }
  split; [apply Hmany|split].
  - intro params. rewrite Hmany.
    destruct (init_takes_the_snapshot params w) as [name [grid E]].
    rewrite E. reflexivity.
  - intros f draw fuel grid.
    unfold LinearScanRandGap.run_algorithm_on_f, bind.
    rewrite resample_ignores_x_path.
    destruct (LinearScanRandGap.resample draw w) as [[[]|e|] w1]; reflexivity.
Qed.

(** ** The path of every variant *)

Lemma LinearScan_get_output_reads {X Y : Type} :
  reader (@LinearScan.get_output_from_exe_path X Y).
Proof. apply reader_gets. Qed.

Lemma AverageOutputs_get_output_reads {X : Type} :
  reader (@AverageOutputs.get_output_from_exe_path X).
Proof. unfold AverageOutputs.get_output_from_exe_path. reads. Qed.

Lemma OptRightScan_get_output_reads :
  reader OptRightScan.get_output_from_exe_path.
Proof. unfold OptRightScan.get_output_from_exe_path. reads. Qed.

(** C9. In a run of each variant, on every function [f] and from every
    state of the instance: the path is empty when the loop is entered;
    after each completed step it holds as many outputs as inputs; a step
    appends the one pair [(x, f(x))] at the end of the path and leaves what
    was there in place; the path the run returns is the one the last step
    left. For [LinearScanRandGap] this is the loop that follows the
    resampling of the grid, when the resampling has not raised. *)
Theorem the_path_is_append_only :
  (forall (X Y : Type) (f : X -> Y) (w : World (LinearScan.Params X) X Y),
      append_only f (LinearScan.run_algorithm_on_f f) (LinearScan.run_prefix f) w)
  /\ (forall (Y : Type) (f : point -> Y) (draw : Z)
             (w : World (LinearScan.Params point) point Y),
         fst (LinearScanRandGap.resample draw w) = Ret tt ->
         append_only f (LinearScanRandGap.run_algorithm_on_f f draw)
                     (LinearScanRandGap.run_prefix f draw) w)
  /\ (forall (X : Type) (f : X -> Q) (w : World (AverageOutputs.Params X) X Q),
         append_only f (AverageOutputs.run_algorithm_on_f f)
                     (AverageOutputs.run_prefix f) w)
  /\ (forall (f : point -> Q) (w : World OptRightScan.Params point Q),
         append_only f (OptRightScan.run_algorithm_on_f f)
                     (OptRightScan.run_prefix f) w).
Proof.
  split; [|split; [|split]].
  - intros X Y f w. apply run_prefix_append_only.
    + apply LinearScan_get_next_x_reads.
    + apply LinearScan_get_output_reads.
  - intros Y f draw w Hr.
    destruct (LinearScanRandGap.resample draw w) as [r w1] eqn:Er.
    simpl in Hr. subst r.
    assert (Hrun : forall fuel,
               LinearScanRandGap.run_algorithm_on_f f draw fuel w
               = LinearScan.run_algorithm_on_f f fuel w1).
    { intro fuel. unfold LinearScanRandGap.run_algorithm_on_f, bind.
      now rewrite Er. }
    assert (Hpre : forall n,
               LinearScanRandGap.run_prefix f draw n w
               = LinearScan.run_prefix f n w1).
    { intro n. unfold LinearScanRandGap.run_prefix, bind. now rewrite Er. }
    destruct (@run_prefix_append_only _ _ _ _ LinearScan.get_next_x
                LinearScan.get_output_from_exe_path f
                LinearScan_get_next_x_reads LinearScan_get_output_reads w1)
      as [H0 [Hstep Hend]].
    split; [|split].
    + rewrite Hpre. exact H0.
    + intro n. rewrite !Hpre. apply Hstep.
    + intros fuel path out w'. rewrite Hrun, Hpre. apply Hend.
  - intros X f w. apply run_prefix_append_only.
    + apply AverageOutputs_get_next_x_reads.
    + apply AverageOutputs_get_output_reads.
  - intros f w. apply run_prefix_append_only.
    + apply OptRightScan_get_next_x_reads.
    + apply OptRightScan_get_output_reads.
Qed.

(** The four variants at work: the scan of [1, 2], the resampled scan of
    the snapshot [1, 3, 2, 7, 0], the average over [1, 2] and the right scan
    of [-x] under the cap [5]. *)
Lemma the_path_is_append_only_witness :
  append_only coord (LinearScan.run_algorithm_on_f coord)
              (LinearScan.run_prefix coord)
              (gap_world [Pt 1; Pt 2] [])
  /\ append_only coord (LinearScanRandGap.run_algorithm_on_f coord 1)
                 (LinearScanRandGap.run_prefix coord 1)
                 (gap_world [] [Pt 1; Pt 3; Pt 2; Pt 7; Pt 0])
  /\ append_only coord (AverageOutputs.run_algorithm_on_f coord)
                 (AverageOutputs.run_prefix coord)
                 (mkWorld (AverageOutputs.mkParams "AverageOutputs" [Pt 1; Pt 2])
                          (ExePath.mk [] []) [])
  /\ append_only downhill (OptRightScan.run_algorithm_on_f downhill)
                 (OptRightScan.run_prefix downhill)
                 (scan_world 5 (ExePath.mk [] [])).
Proof.
  destruct the_path_is_append_only as [H1 [H2 [H3 H4]]].
  split; [apply H1|split; [apply H2; reflexivity|split; [apply H3|apply H4]]].
Defined.

(** ** Configuration *)

(** C6, as the code has it. [set_params] never fails, on any
    configuration: an option that is not given takes its default (for
    [LinearScan] a grid of 100 points, for [OptRightScan] the point [4.0],
    the gap [0.1], the threshold [0.2] and 100 iterations) and an option
    that is given is stored as it is, unchecked. An empty grid and a
    [max_iter] that is not positive are accepted; they show at run time:
    the empty grid as a run of no step with an empty output, a negative
    [max_iter] as the IndexError of the output extraction. *)
Theorem set_params_accepts_every_configuration :
  (forall (Y : Type) (params : LinearScan.Config point)
          (w : World (LinearScan.Params point) point Y),
      exists P,
        LinearScan.set_params params w = (Ret tt, mkWorld P (exe_path w) (f_calls w))
        /\ LinearScan.name P
           = LinearScan.getattr (LinearScan.cfg_name params) "LinearScan"%string
        /\ (forall g, LinearScan.cfg_x_path params = Some g -> LinearScan.x_path P = g)
        /\ (LinearScan.cfg_x_path params = None -> length (LinearScan.x_path P) = 100%nat))
  /\ (forall (params : AverageOutputs.Config point)
             (w : World (AverageOutputs.Params point) point Q),
         exists P,
           AverageOutputs.set_params params w
           = (Ret tt, mkWorld P (exe_path w) (f_calls w))
           /\ (forall g, AverageOutputs.cfg_x_path params = Some g ->
                         AverageOutputs.x_path P = g)
           /\ (AverageOutputs.cfg_x_path params = None ->
               AverageOutputs.x_path P
               = [Pt 5.1; Pt 5.3; Pt 5.5; Pt 20.1; Pt 20.3; Pt 20.5]))
  /\ (forall (params : OptRightScan.Config) (w : World OptRightScan.Params point Q),
         exists P,
           OptRightScan.set_params params w
           = (Ret tt, mkWorld P (exe_path w) (f_calls w))
           /\ OptRightScan.init_x P
              = LinearScan.getattr (OptRightScan.cfg_init_x params) (Pt 4.0)
           /\ OptRightScan.x_grid_gap P
              = LinearScan.getattr (OptRightScan.cfg_x_grid_gap params) 0.1
           /\ OptRightScan.conv_thresh P
              = LinearScan.getattr (OptRightScan.cfg_conv_thresh params) 0.2
           /\ OptRightScan.max_iter P
              = LinearScan.getattr (OptRightScan.cfg_max_iter params) 100%Z)
  /\ (forall (Y : Type) (f : point -> Y) (fuel : nat)
             (w : World (LinearScan.Params point) point Y),
         LinearScan.x_path (self_params w) = [] ->
         LinearScan.run_algorithm_on_f f fuel w
         = (Ret (ExePath.mk [] [], []), scanned f [] w))
  /\ (forall (f : point -> Q) (fuel : nat) (w : World OptRightScan.Params point Q),
         (OptRightScan.max_iter (self_params w) < 0)%Z ->
         OptRightScan.run_algorithm_on_f f fuel w
         = (Raise IndexError, scanned f [] w)).
Proof.
  split; [|split; [|split; [|split]]].
  - intros Y params w.
    destruct (set_params_shape params w) as [name [grid [E [En [Eg Ed]]]]].
    exists (LinearScan.mkParams name grid None). auto.
  - intros params w. eexists. split; [reflexivity|]. simpl.
    unfold dict_to_namespace.
    split; [intros g E|intro E]; rewrite E; reflexivity.
  - intros params w. eexists. split; [reflexivity|]. simpl. auto.
  - intros Y f fuel w E. unfold LinearScan.run_algorithm_on_f.
    rewrite grid_run with (grid_of := @LinearScan.x_path point) (out_of := fun ys => ys)
      by (reflexivity || apply LinearScan_get_next_x_walk).
    rewrite E. reflexivity.
  - intros f fuel w Hneg.
    destruct (@OptRightScan_run f fuel w) as [xs [Hrun [Hbound _]]]; [lia|].
    destruct xs as [|a xs]; [exact Hrun|]. simpl length in Hbound. lia.
Qed.

(** The empty grid, and the caps [0] and [-3], configured and run. *)
Lemma set_params_accepts_every_configuration_witness :
  (exists P,
      LinearScan.set_params (LinearScan.mkConfig None (Some [])) blank_scan
      = (Ret tt, mkWorld P (ExePath.mk [] []) [])
      /\ LinearScan.x_path P = [])
  /\ LinearScan.run_algorithm_on_f coord 0 (gap_world [] [])
     = (Ret (ExePath.mk [] [], []), scanned coord [] (gap_world [] []))
  /\ OptRightScan.run_algorithm_on_f downhill 0 (scan_world (-3) (ExePath.mk [] []))
     = (Raise IndexError, scanned downhill [] (scan_world (-3) (ExePath.mk [] []))).
Proof.
  destruct set_params_accepts_every_configuration as [H1 [_ [_ [H4 H5]]]].
  split; [|split].
  - destruct (H1 Q (LinearScan.mkConfig None (Some [])) blank_scan)
      as [P [E [_ [Eg _]]]].
    exists P. split; [exact E|]. now apply Eg.
  - apply H4. reflexivity.
  - apply H5. reflexivity.
Defined.

(** The claim fails here: configured with the empty grid, [LinearScan]
    raises nothing and keeps the empty grid; configured with [max_iter = 0]
    or [max_iter = -3], [OptRightScan] raises nothing and keeps the cap. *)
Lemma set_params_does_not_validate :
  (forall e : exn,
      fst (LinearScan.set_params (LinearScan.mkConfig None (Some [])) blank_scan)
      <> Raise e)
  /\ LinearScan.x_path
       (self_params
          (snd (LinearScan.set_params (LinearScan.mkConfig None (Some [])) blank_scan)))
     = []
  /\ OptRightScan.set_params
       (OptRightScan.mkConfig None None None None (Some 0%Z)) blank_right_scan
     = (Ret tt, scan_world 0 (ExePath.mk [] []))
  /\ OptRightScan.set_params
       (OptRightScan.mkConfig None None None None (Some (-3)%Z)) blank_right_scan
     = (Ret tt, scan_world (-3) (ExePath.mk [] [])).
Proof.
  repeat split.
  intros e. vm_compute. discriminate.
Qed.

(** * Further properties of the code *)

(** ** What every run does, whatever the variant *)

Section Replay.
Context {P X Y Out : Type}.
Variable get_next_x : M (World P X Y) (option X).
Variable get_output_from_exe_path : M (World P X Y) Out.
Variable f : X -> Y.
Hypothesis get_next_x_reads : reader get_next_x.
Hypothesis get_output_reads : reader get_output_from_exe_path.

Lemma loop_replay (fuel : nat) :
  forall w w' : World P X Y,
    bind get_next_x (Runner.while_loop get_next_x f fuel) w = (Ret tt, w') ->
    exists xs,
      w' = advance f xs w
      /\ fst (get_next_x (advance f xs w)) = Ret None
      /\ forall k x, nth_error xs k = Some x ->
                     fst (get_next_x (advance f (firstn k xs) w)) = Ret (Some x).
Proof.
  induction fuel as [|fuel IH]; intros w w'; unfold bind at 1;
    pose proof (get_next_x_reads w) as Hr;
    destruct (get_next_x w) as [[[v|]|e|] w1] eqn:En; cbn [snd] in Hr; subst w1;
    try discriminate.
  - intro H. injection H as <-. exists []. rewrite advance_nil, En.
    repeat split. intros [|k] x; discriminate.
  - change (Runner.while_loop get_next_x f (S fuel) (Some v) w)
      with (bind get_next_x (Runner.while_loop get_next_x f fuel)
                 (advance f [v] w)).
    intro H. destruct (IH _ _ H) as [xs [E [Hstop Hnth]]].
    exists (v :: xs). rewrite <- advance_cons. repeat split; try assumption.
    intros [|k] x Hk.
    + injection Hk as <-. simpl. rewrite advance_nil, En. reflexivity.
    + simpl. rewrite <- advance_cons. now apply Hnth.
  - intro H. injection H as <-. exists []. rewrite advance_nil, En.
    repeat split. intros [|k] x; discriminate.
Qed.

Lemma loop_state (fuel : nat) :
  forall (x : option X) (w : World P X Y),
    exists xs, snd (Runner.while_loop get_next_x f fuel x w) = advance f xs w.
Proof.
  induction fuel as [|fuel IH]; intros [v|] w;
    try (exists []; now rewrite advance_nil).
  change (Runner.while_loop get_next_x f (S fuel) (Some v) w)
    with (bind get_next_x (Runner.while_loop get_next_x f fuel)
               (advance f [v] w)).
  unfold bind. pose proof (get_next_x_reads (advance f [v] w)) as Hr.
  destruct (get_next_x (advance f [v] w)) as [[x'|e|] w1]; cbn [snd] in Hr; subst w1;
    try (exists [v]; reflexivity).
  destruct (IH x' (advance f [v] w)) as [xs E].
  exists (v :: xs). rewrite <- (advance_cons f v xs w). exact E.
Qed.

Lemma run_state (fuel : nat) (w : World P X Y) :
  exists xs,
    snd (Runner.run_algorithm_on_f get_next_x get_output_from_exe_path f fuel w)
    = scanned f xs w.
Proof.
  unfold Runner.run_algorithm_on_f, Runner.new_exe_path.
  unfold bind at 1. unfold modify.
  set (w0 := mkWorld (self_params w) (ExePath.mk [] []) (f_calls w)).
  unfold bind at 1. pose proof (get_next_x_reads w0) as Hr.
  destruct (get_next_x w0) as [[x|e|] w1]; cbn [snd] in Hr; subst w1;
    try (exists []; unfold scanned; simpl; now rewrite app_nil_r).
  destruct (loop_state fuel x w0) as [xs E].
  exists xs. unfold bind at 1.
  destruct (Runner.while_loop get_next_x f fuel x w0) as [[[]|e|] w2];
    cbn [snd] in E; subst w2; try reflexivity.
  unfold bind at 1. pose proof (get_output_reads (advance f xs w0)) as Ho.
  destruct (get_output_from_exe_path (advance f xs w0)) as [[o|e|] w3];
    cbn [snd] in Ho; subst w3; reflexivity.
Qed.

Lemma run_replay (fuel : nat) (w w' : World P X Y) (path : ExePath.t X Y)
  (out : Out) :
  Runner.run_algorithm_on_f get_next_x get_output_from_exe_path f fuel w
  = (Ret (path, out), w') ->
  exists xs,
    path = ExePath.mk xs (map f xs)
    /\ w' = scanned f xs w
    /\ fst (get_output_from_exe_path (scanned f xs w)) = Ret out
    /\ fst (get_next_x (scanned f xs w)) = Ret None
    /\ forall k x, nth_error xs k = Some x ->
                   fst (get_next_x (scanned f (firstn k xs) w)) = Ret (Some x).
Proof.
  unfold Runner.run_algorithm_on_f, Runner.new_exe_path.
  unfold bind at 1. unfold modify.
  set (w0 := mkWorld (self_params w) (ExePath.mk [] []) (f_calls w)).
  rewrite <- bind_assoc. unfold bind at 1.
  destruct (bind get_next_x (Runner.while_loop get_next_x f fuel) w0)
    as [[[]|e|] w2] eqn:El; try discriminate.
  destruct (loop_replay _ _ El) as [xs [E [Hstop Hnth]]]. subst w2.
  unfold bind at 1. pose proof (get_output_reads (advance f xs w0)) as Ho.
  destruct (get_output_from_exe_path (advance f xs w0)) as [[o|e|] w3] eqn:Eo;
    cbn [snd] in Ho; subst w3; try discriminate.
  unfold bind, gets, ret. intro H. injection H as <- <- <-.
  exists xs. change (advance f xs w0) with (scanned f xs w) in *.
  repeat split; try assumption. now rewrite Eo.
Qed.

End Replay.

Lemma resample_state {Y : Type} (draw : Z)
  (w : World (LinearScan.Params point) point Y) :
  snd (LinearScanRandGap.resample draw w) = w
  \/ exists grid, LinearScanRandGap.resample draw w = (Ret tt, with_x_path grid w).
Proof.
  unfold LinearScanRandGap.resample, with_x_path. munfold.
  destruct (LinearScan.x_path_orig (self_params w)) as [orig|] eqn:Eo;
    [|now left].
  unfold np.random_randint. destruct (_ <? _)%Z; [|now left].
  unfold ret. destruct orig as [|p ps]; [now left|].
  cbn [map np.min np.max]. unfold np.linspace.
  destruct (_ <? 0)%Z; [now left|]. right. eexists. unfold ret. cbv beta iota.
  rewrite Eo. reflexivity.
Qed.

Lemma LinearScanRandGap_run_returns {Y : Type} (f : point -> Y) (draw : Z)
  (fuel : nat) (w w' : World (LinearScan.Params point) point Y)
  (path : ExePath.t point Y) (out : list Y) :
  LinearScanRandGap.run_algorithm_on_f f draw fuel w = (Ret (path, out), w') ->
  exists grid,
    LinearScanRandGap.resample draw w = (Ret tt, with_x_path grid w)
    /\ LinearScan.run_algorithm_on_f f fuel (with_x_path grid w)
       = (Ret (path, out), w').
Proof.
  unfold LinearScanRandGap.run_algorithm_on_f. unfold bind at 1.
  destruct (resample_state draw w) as [E|[grid E]].
  - destruct (LinearScanRandGap.resample draw w) as [[[]|e|] w1] eqn:Er;
      try discriminate.
    cbn [snd] in E. subst w1. intro H. exists (LinearScan.x_path (self_params w)).
    assert (Ew : with_x_path (LinearScan.x_path (self_params w)) w = w).
    { pose proof (resample_keeps_the_snapshot draw w) as Hs. rewrite Er in Hs.
      destruct w as [[n g o] p c]. reflexivity. }
    rewrite Ew. split; [reflexivity|exact H].
  - rewrite E. intro H. exists grid. split; [reflexivity|exact H].
Qed.

(** X1. Whenever a run of one of the four variants returns: the path it
    returns is the one it built, each output of the path is the image by
    [f] of the input beside it, and [f] has been called on the inputs of the
    path, once each and in their order, and on nothing else. *)
Theorem every_run_records_each_query :
  (forall (X Y : Type) (f : X -> Y),
      records_each_query f (LinearScan.run_algorithm_on_f f))
  /\ (forall (Y : Type) (f : point -> Y) (draw : Z),
         records_each_query f (LinearScanRandGap.run_algorithm_on_f f draw))
  /\ (forall (X : Type) (f : X -> Q),
         records_each_query f (AverageOutputs.run_algorithm_on_f f))
  /\ (forall f : point -> Q,
         records_each_query f (OptRightScan.run_algorithm_on_f f)).
Proof.
  assert (G : forall (P X Y Out : Type) (g : M (World P X Y) (option X))
                     (o : M (World P X Y) Out) (f : X -> Y),
             reader g -> reader o ->
             records_each_query f (Runner.run_algorithm_on_f g o f)).
  { intros P X Y Out g o f Hg Ho fuel w w' path out H.
    destruct (@run_replay _ _ _ _ g o f Hg Ho fuel w w' path out H) as [xs [-> [-> _]]]. repeat split. }
  split; [|split; [|split]].
  - intros X Y f. apply G.
    + apply LinearScan_get_next_x_reads.
    + apply LinearScan_get_output_reads.
  - intros Y f draw fuel w w' path out H.
    destruct (@LinearScanRandGap_run_returns Y f draw fuel w w' path out H) as [grid [_ Hrun]].
    exact (G _ _ _ _ _ _ f LinearScan_get_next_x_reads
             LinearScan_get_output_reads _ _ _ _ _ Hrun).
  - intros X f. apply G.
    + apply AverageOutputs_get_next_x_reads.
    + apply AverageOutputs_get_output_reads.
  - intros f. apply G.
    + apply OptRightScan_get_next_x_reads.
    + apply OptRightScan_get_output_reads.
Qed.

(** The right scan of [-x] under the cap [5], run on fuel for 6 steps. *)
Lemma every_run_records_each_query_witness :
  exists path out w',
    OptRightScan.run_algorithm_on_f downhill 6 (scan_world 5 (ExePath.mk [] []))
    = (Ret (path, out), w')
    /\ exe_path w' = path
    /\ ExePath.y path = map downhill (ExePath.x path)
    /\ f_calls w' = ExePath.x path.
Proof.
  destruct (OptRightScan.run_algorithm_on_f downhill 6
              (scan_world 5 (ExePath.mk [] []))) as [[[path out]|e|] w'] eqn:E;
    try (vm_compute in E; discriminate E).
  exists path, out, w'. split; [reflexivity|].
  exact (proj2 (proj2 (proj2 every_run_records_each_query))
           downhill 6%nat _ _ _ _ E).
Defined.

(** X2. A run of [LinearScan], [AverageOutputs] or [OptRightScan] leaves
    [self.params] as it found it, whatever its outcome (a result, an
    exception, or a loop still running when the fuel is spent); a run of
    [LinearScanRandGap] changes [params.x_path] at most: the name and the
    snapshot stay. *)
Theorem a_run_keeps_the_parameters :
  (forall (X Y : Type) (f : X -> Y) (fuel : nat)
          (w : World (LinearScan.Params X) X Y),
      self_params (snd (LinearScan.run_algorithm_on_f f fuel w)) = self_params w)
  /\ (forall (X : Type) (f : X -> Q) (fuel : nat)
             (w : World (AverageOutputs.Params X) X Q),
         self_params (snd (AverageOutputs.run_algorithm_on_f f fuel w))
         = self_params w)
  /\ (forall (f : point -> Q) (fuel : nat) (w : World OptRightScan.Params point Q),
         self_params (snd (OptRightScan.run_algorithm_on_f f fuel w))
         = self_params w)
  /\ (forall (Y : Type) (f : point -> Y) (draw : Z) (fuel : nat)
             (w : World (LinearScan.Params point) point Y),
         LinearScan.name
           (self_params (snd (LinearScanRandGap.run_algorithm_on_f f draw fuel w)))
         = LinearScan.name (self_params w)
         /\ LinearScan.x_path_orig
              (self_params (snd (LinearScanRandGap.run_algorithm_on_f f draw fuel w)))
            = LinearScan.x_path_orig (self_params w)).
Proof.
  assert (G : forall (P X Y Out : Type) (g : M (World P X Y) (option X))
                     (o : M (World P X Y) Out) (f : X -> Y) (fuel : nat)
                     (w : World P X Y),
             reader g -> reader o ->
             self_params (snd (Runner.run_algorithm_on_f g o f fuel w))
             = self_params w).
  { intros P X Y Out g o f fuel w Hg Ho.
    destruct (@run_state _ _ _ _ g o f Hg Ho fuel w) as [xs E]. rewrite E. reflexivity. }
  split; [|split; [|split]].
  - intros. apply G.
    + apply LinearScan_get_next_x_reads.
    + apply LinearScan_get_output_reads.
  - intros. apply G.
    + apply AverageOutputs_get_next_x_reads.
    + apply AverageOutputs_get_output_reads.
  - intros. apply G.
    + apply OptRightScan_get_next_x_reads.
    + apply OptRightScan_get_output_reads.
  - intros Y f draw fuel w.
    split; [|apply LinearScanRandGap_run_keeps_the_snapshot].
    unfold LinearScanRandGap.run_algorithm_on_f. unfold bind at 1.
    destruct (resample_state draw w) as [E|[grid E]].
    + destruct (LinearScanRandGap.resample draw w) as [[[]|e|] w1];
        cbn [snd] in E; subst w1; try reflexivity.
      unfold LinearScan.run_algorithm_on_f. rewrite G; [reflexivity| |].
      * apply LinearScan_get_next_x_reads.
      * apply LinearScan_get_output_reads.
    + rewrite E. unfold LinearScan.run_algorithm_on_f. rewrite G; [reflexivity| |].
      * apply LinearScan_get_next_x_reads.
      * apply LinearScan_get_output_reads.
Qed.

(** X3. The path a run returns is the one [get_next_x] dictates: called on
    the first [k] pairs of the path it proposes input [k], and called on the
    whole path it answers the stop sentinel. For [LinearScanRandGap] the
    calls are made with the grid of that run in [params.x_path]. *)
Theorem get_next_x_replays_the_path :
  (forall (X Y : Type) (f : X -> Y) (fuel : nat)
          (w w' : World (LinearScan.Params X) X Y) path out,
      LinearScan.run_algorithm_on_f f fuel w = (Ret (path, out), w') ->
      replayed_by LinearScan.get_next_x f w (ExePath.x path))
  /\ (forall (Y : Type) (f : point -> Y) (draw : Z) (fuel : nat)
             (w w' : World (LinearScan.Params point) point Y) path out,
         LinearScanRandGap.run_algorithm_on_f f draw fuel w = (Ret (path, out), w') ->
         replayed_by LinearScanRandGap.get_next_x f
                     (snd (LinearScanRandGap.resample draw w)) (ExePath.x path))
  /\ (forall (X : Type) (f : X -> Q) (fuel : nat)
             (w w' : World (AverageOutputs.Params X) X Q) path out,
         AverageOutputs.run_algorithm_on_f f fuel w = (Ret (path, out), w') ->
         replayed_by AverageOutputs.get_next_x f w (ExePath.x path))
  /\ (forall (f : point -> Q) (fuel : nat)
             (w w' : World OptRightScan.Params point Q) path out,
         OptRightScan.run_algorithm_on_f f fuel w = (Ret (path, out), w') ->
         replayed_by OptRightScan.get_next_x f w (ExePath.x path)).
Proof.
  assert (G : forall (P X Y Out : Type) (g : M (World P X Y) (option X))
                     (o : M (World P X Y) Out) (f : X -> Y),
             reader g -> reader o ->
             forall fuel w w' path out,
               Runner.run_algorithm_on_f g o f fuel w = (Ret (path, out), w') ->
               replayed_by g f w (ExePath.x path)).
  { intros P X Y Out g o f Hg Ho fuel w w' path out H.
    destruct (@run_replay _ _ _ _ g o f Hg Ho fuel w w' path out H) as [xs [-> [_ [_ [Hstop Hnth]]]]].
    split; assumption. }
  split; [|split; [|split]].
  - intros X Y f fuel w w' path out.
    apply G; [apply LinearScan_get_next_x_reads|apply LinearScan_get_output_reads].
  - intros Y f draw fuel w w' path out H.
    destruct (@LinearScanRandGap_run_returns Y f draw fuel w w' path out H) as [grid [Er Hrun]].
    rewrite Er. cbn [snd].
    exact (G _ _ _ _ _ _ f LinearScan_get_next_x_reads
             LinearScan_get_output_reads _ _ _ _ _ Hrun).
  - intros X f fuel w w' path out.
    apply G; [apply AverageOutputs_get_next_x_reads
             |apply AverageOutputs_get_output_reads].
  - intros f fuel w w' path out.
    apply G; [apply OptRightScan_get_next_x_reads
             |apply OptRightScan_get_output_reads].
Qed.

(** ** The path of OptRightScan *)

Lemma firstn_prefix {A : Type} (l1 l2 : list A) :
  firstn (length l1) (l1 ++ l2) = l1.
Proof. induction l1 as [|a l1 IH]; simpl; congruence. Qed.

Lemma scanned_paired {P X Y : Type} (f : X -> Y) (xs : list X) (w : World P X Y) :
  paired (exe_path (scanned f xs w)).
Proof. unfold paired. simpl. now rewrite length_map. Qed.

Lemma OptRightScan_run_follows_next_of (f : point -> Q) (fuel : nat)
  (w w' : World OptRightScan.Params point Q) (path : ExePath.t point Q)
  (out : point) :
  OptRightScan.run_algorithm_on_f f fuel w = (Ret (path, out), w') ->
  exists xs,
    path = ExePath.mk xs (map f xs)
    /\ (exists front, xs = front ++ [out])
    /\ next_of (self_params w) (ExePath.mk xs (map f xs)) = None
    /\ forall k x, nth_error xs k = Some x ->
                   next_of (self_params w)
                           (ExePath.mk (firstn k xs) (map f (firstn k xs)))
                   = Some x.
Proof.
  intro H.
  destruct (@run_replay _ _ _ _ OptRightScan.get_next_x
              OptRightScan.get_output_from_exe_path f
              OptRightScan_get_next_x_reads OptRightScan_get_output_reads
              fuel w w' path out H) as [xs [-> [_ [Hout [Hstop Hnth]]]]].
  exists xs. split; [reflexivity|split; [|split]].
  - unfold OptRightScan.get_output_from_exe_path in Hout. munfold.
    cbn [scanned exe_path ExePath.x] in Hout.
    destruct (rev xs) as [|a r] eqn:Er; [discriminate|].
    injection Hout as <-. exists (rev r).
    rewrite <- (rev_involutive xs), Er. reflexivity.
  - rewrite OptRightScan_get_next_x_paired in Hstop by apply scanned_paired.
    now injection Hstop.
  - intros k x Hk. specialize (Hnth k x Hk).
    rewrite OptRightScan_get_next_x_paired in Hnth by apply scanned_paired.
    now injection Hnth.
Qed.

(** X4. The path a run of [OptRightScan] returns starts at the configured
    initial point, each of its inputs is the one before it moved by the
    step gap, and the output of the run is its last input. *)
Theorem OptRightScan_scans_by_the_gap (f : point -> Q) (fuel : nat)
  (w w' : World OptRightScan.Params point Q) (path : ExePath.t point Q)
  (out : point)
  (Hrun : OptRightScan.run_algorithm_on_f f fuel w = (Ret (path, out), w')) :
  (exists rest, ExePath.x path = OptRightScan.init_x (self_params w) :: rest)
  /\ (forall front a b back,
         ExePath.x path = front ++ a :: b :: back ->
         b = Pt (coord a + OptRightScan.x_grid_gap (self_params w)))
  /\ (exists front, ExePath.x path = front ++ [out]).
Proof.
  destruct (OptRightScan_run_follows_next_of _ _ _ Hrun)
    as [xs [-> [Hlast [_ Hnth]]]].
  cbn [ExePath.x]. split; [|split; [|exact Hlast]].
  - destruct xs as [|x0 rest].
    + destruct Hlast as [[|? ?] E]; discriminate E.
    + exists rest. f_equal.
      destruct (next_of_some _ _ (Hnth 0%nat x0 eq_refl)) as [_ E]. exact E.
  - intros front a b back E.
    assert (Hk : nth_error xs (S (length front)) = Some b).
    { rewrite E, nth_error_app2 by lia.
      replace (S (length front) - length front)%nat with 1%nat by lia.
      reflexivity. }
    destruct (next_of_some _ _ (Hnth _ _ Hk)) as [_ Eb].
    cbn [ExePath.x] in Eb.
    replace (firstn (S (length front)) xs) with (front ++ [a]) in Eb.
    + now rewrite rev_unit in Eb.
    + rewrite E. change (front ++ a :: b :: back) with (front ++ [a] ++ b :: back).
      rewrite app_assoc.
      replace (S (length front)) with (length (front ++ [a]))
        by (rewrite length_app; cbn [length]; lia).
      now rewrite firstn_prefix.
Qed.

Lemma next_of_some_not_risen (P : OptRightScan.Params) (p : ExePath.t point Q)
  (v : point) :
  next_of P p = Some v ->
  (2 <=? length (ExePath.x p))%nat && risen (OptRightScan.conv_thresh P) (ExePath.y p)
  = false.
Proof.
  unfold next_of. destruct (_ <? _)%Z; [discriminate|].
  destruct (_ && _); [discriminate|reflexivity].
Qed.

Lemma next_of_none_below_cap (P : OptRightScan.Params) (p : ExePath.t point Q) :
  next_of P p = None ->
  (Z.of_nat (length (ExePath.x p)) <= OptRightScan.max_iter P)%Z ->
  (2 <= length (ExePath.x p))%nat
  /\ risen (OptRightScan.conv_thresh P) (ExePath.y p) = true.
Proof.
  unfold next_of. intros H Hcap.
  destruct (Z.ltb_spec (OptRightScan.max_iter P) (Z.of_nat (length (ExePath.x p))));
    [lia|].
  destruct (Nat.leb_spec 2 (length (ExePath.x p))); simpl in H;
    [|discriminate].
  destruct (risen _ _); [auto|discriminate].
Qed.

(** X5. A run of [OptRightScan] stops at the first rise. In the path it
    returns, every output but the last is at most the least of the outputs
    before it plus the threshold; and when the path has at most [max_iter]
    points, so that the cap is not what ended the run, the last output
    exceeds the least of the outputs before it plus the threshold. *)
Theorem OptRightScan_stops_at_the_first_rise (f : point -> Q) (fuel : nat)
  (w w' : World OptRightScan.Params point Q) (path : ExePath.t point Q)
  (out : point)
  (Hrun : OptRightScan.run_algorithm_on_f f fuel w = (Ret (path, out), w')) :
  (forall front y_k rest best,
      ExePath.y path = front ++ y_k :: rest ->
      rest <> [] ->
      least best front ->
      y_k <= best + OptRightScan.conv_thresh (self_params w))
  /\ ((Z.of_nat (length (ExePath.x path)) <= OptRightScan.max_iter (self_params w))%Z ->
      exists front y_last best,
        ExePath.y path = front ++ [y_last]
        /\ least best front
        /\ best + OptRightScan.conv_thresh (self_params w) < y_last).
Proof.
  destruct (OptRightScan_run_follows_next_of _ _ _ Hrun)
    as [xs [-> [_ [Hstop Hnth]]]].
  cbn [ExePath.x ExePath.y]. split.
  - intros front y_k rest best Ey Hrest [Hin Hleast].
    destruct front as [|y0 t]; [destruct Hin|].
    set (k := length ((y0 :: t) ++ [y_k])).
    assert (Hk : (k < length xs)%nat).
    { rewrite <- (length_map f xs), Ey. unfold k. rewrite !length_app.
      destruct rest; [congruence|]. simpl. lia. }
    destruct (nth_error xs k) as [x|] eqn:Ex;
      [|apply nth_error_None in Ex; lia].
    pose proof (next_of_some_not_risen _ _ (Hnth k x Ex)) as Hn.
    cbn [ExePath.x ExePath.y] in Hn.
    rewrite <- firstn_map, Ey in Hn.
    change ((y0 :: t) ++ y_k :: rest) with ((y0 :: t) ++ [y_k] ++ rest) in Hn.
    rewrite app_assoc in Hn. unfold k in Hn at 2. rewrite firstn_prefix in Hn.
    rewrite length_firstn, Nat.min_l in Hn by lia.
    assert (H2 : (2 <=? k)%nat = true).
    { apply Nat.leb_le. unfold k. rewrite length_app. simpl. lia. }
    rewrite H2 in Hn. simpl andb in Hn.
    apply Qnot_lt_le. intro Hlt.
    assert (Hr : risen (OptRightScan.conv_thresh (self_params w))
                       (y0 :: t ++ [y_k]) = true).
    { apply risen_spec. exists best. repeat split; assumption. }
    simpl app in Hn. congruence.
  - intro Hcap.
    destruct (next_of_none_below_cap _ _ Hstop Hcap) as [Hlen Hr].
    cbn [ExePath.x ExePath.y] in Hlen, Hr.
    destruct (last_cases (map f xs)) as [E|[front [y_last E]]].
    + apply (f_equal (@length Q)) in E. rewrite length_map in E. simpl in E. lia.
    + destruct front as [|y0 t].
      * apply (f_equal (@length Q)) in E. rewrite length_map in E. simpl in E. lia.
      * rewrite E in Hr. apply risen_spec in Hr. destruct Hr as [best [Hl Hb]].
        exists (y0 :: t), y_last, best. repeat split; try assumption; apply Hl.
Qed.

(** The right scan of the valley from [4.0] under the cap [5]. *)
Lemma OptRightScan_scans_by_the_gap_witness :
  exists path out w',
    OptRightScan.run_algorithm_on_f valley 10 (scan_world 5 (ExePath.mk [] []))
    = (Ret (path, out), w')
    /\ (exists rest, ExePath.x path = Pt 4.0 :: rest)
    /\ (forall front a b back,
           ExePath.x path = front ++ a :: b :: back -> b = Pt (coord a + 0.1))
    /\ (exists front, ExePath.x path = front ++ [out]).
Proof.
  destruct (OptRightScan.run_algorithm_on_f valley 10
              (scan_world 5 (ExePath.mk [] []))) as [[[path out]|e|] w'] eqn:E;
    try (vm_compute in E; discriminate E).
  exists path, out, w'. split; [reflexivity|].
  exact (@OptRightScan_scans_by_the_gap valley 10 _ _ _ _ E).
Defined.

(** The same run: it ends on its fourth point, below the cap, on a rise. *)
Lemma OptRightScan_stops_at_the_first_rise_witness :
  exists path out w',
    OptRightScan.run_algorithm_on_f valley 10 (scan_world 5 (ExePath.mk [] []))
    = (Ret (path, out), w')
    /\ exists front y_last best,
         ExePath.y path = front ++ [y_last]
         /\ least best front
         /\ best + 0.2 < y_last.
Proof.
  assert (L : match fst (OptRightScan.run_algorithm_on_f valley 10
                           (scan_world 5 (ExePath.mk [] []))) with
              | Ret (p, _) => length (ExePath.x p)
              | _ => 0%nat
              end = 4%nat) by (vm_compute; reflexivity).
  destruct (OptRightScan.run_algorithm_on_f valley 10
              (scan_world 5 (ExePath.mk [] []))) as [[[path out]|e|] w'] eqn:E;
    try discriminate L.
  cbn [fst] in L.
  exists path, out, w'. split; [reflexivity|].
  apply (proj2 (@OptRightScan_stops_at_the_first_rise valley 10 _ _ _ _ E)).
  rewrite L. simpl. lia.
Defined.

(** ** Configuring again *)

Lemma LinearScan_set_params_state {Y : Type} (params : LinearScan.Config point)
  (w : World (LinearScan.Params point) point Y) :
  LinearScan.set_params params w
  = (Ret tt,
     mkWorld (self_params (snd (LinearScan.set_params params
                                  (mkWorld (LinearScan.mkParams "" [] None)
                                           (ExePath.mk [] []) ([] : list point)
                                   : World (LinearScan.Params point) point Y))))
             (exe_path w) (f_calls w)).
Proof.
  unfold LinearScan.set_params, bind, np.linspace.
  change (100 <? 0)%Z with false. cbv iota. unfold ret, modify. reflexivity.
Qed.

(** X6. [set_params] starts from nothing each time: configuring an instance
    a second time gives the parameters that the second configuration alone
    gives. An option set by the first call and absent from the second is
    back to its default; for [LinearScan] the attribute [x_path_orig] is
    gone. *)
Theorem set_params_starts_afresh :
  (forall (Y : Type) (first second : LinearScan.Config point)
          (w : World (LinearScan.Params point) point Y),
      LinearScan.set_params second (snd (LinearScan.set_params first w))
      = LinearScan.set_params second w
      /\ LinearScan.x_path_orig (self_params (snd (LinearScan.set_params second w)))
         = None)
  /\ (forall (first second : AverageOutputs.Config point)
             (w : World (AverageOutputs.Params point) point Q),
         AverageOutputs.set_params second (snd (AverageOutputs.set_params first w))
         = AverageOutputs.set_params second w)
  /\ (forall (first second : OptRightScan.Config)
             (w : World OptRightScan.Params point Q),
         OptRightScan.set_params second (snd (OptRightScan.set_params first w))
         = OptRightScan.set_params second w).
Proof.
  split; [|split].
  - intros Y first second w.
    rewrite (LinearScan_set_params_state first w).
    rewrite (LinearScan_set_params_state second w).
    rewrite (LinearScan_set_params_state second (snd (_, _))).
    split; reflexivity.
  - reflexivity.
  - reflexivity.
Qed.

Lemma LinearScanRandGap_resamples_grid_or_raises {Y : Type} (f : point -> Y)
  (draw : Z) (fuel : nat) (w : World (LinearScan.Params point) point Y)
  (orig : list point) :
  LinearScan.x_path_orig (self_params w) = Some orig ->
  fst (LinearScanRandGap.run_algorithm_on_f f draw fuel w) <> Raise AttributeError.
Proof.
  intro Ho. destruct orig as [|p ps].
  - rewrite (LinearScanRandGap_empty_grid_raises f draw fuel w Ho). discriminate.
  - destruct (@resample_grid Y draw w (p :: ps) Ho) as [grid [Hr _]];
      [discriminate|].
    rewrite (@LinearScanRandGap_run_on Y f draw fuel w _ Hr).
    destruct (_ <=? _)%nat; discriminate.
Qed.

(** X7. [set_params] called on an instance of [LinearScanRandGap] (the
    method is inherited) removes the snapshot [x_path_orig] that only
    [__init__] takes: the next run raises AttributeError before it queries
    anything, whereas a run that follows [__init__] does not. *)
Theorem LinearScanRandGap_set_params_drops_the_snapshot {Y : Type}
  (params : LinearScan.Config point) (f : point -> Y) (draw : Z) (fuel : nat)
  (w : World (LinearScan.Params point) point Y) :
  LinearScanRandGap.run_algorithm_on_f f draw fuel
    (snd (LinearScan.set_params params w))
  = (Raise AttributeError, snd (LinearScan.set_params params w))
  /\ fst (LinearScanRandGap.run_algorithm_on_f f draw fuel
            (snd (LinearScanRandGap.__init__ params w)))
     <> Raise AttributeError.
Proof.
  split.
  - rewrite (LinearScan_set_params_state params w). reflexivity.
  - destruct (init_takes_the_snapshot params w) as [name [grid E]].
    rewrite E. cbn [snd].
    pose proof (@LinearScanRandGap_resamples_grid_or_raises Y f draw fuel
                  (mkWorld (LinearScan.mkParams name grid (Some grid))
                           (exe_path w) (f_calls w)) grid eq_refl) as H.
    exact H.
Qed.

(** ** Calls of [get_next_x] on paths that no run builds *)

(** X8. On a path longer than the grid, [get_next_x] of [LinearScan] (and of
    [LinearScanRandGap], which inherits it) and of [AverageOutputs] does not
    answer the stop sentinel: the index [len(path)] is past the end of the
    grid and the call raises IndexError. *)
Theorem get_next_x_past_the_grid :
  (forall (X Y : Type) (w : World (LinearScan.Params X) X Y),
      (length (LinearScan.x_path (self_params w))
       < length (ExePath.x (exe_path w)))%nat ->
      LinearScan.get_next_x w = (Raise IndexError, w))
  /\ (forall (X : Type) (w : World (AverageOutputs.Params X) X Q),
         (length (AverageOutputs.x_path (self_params w))
          < length (ExePath.x (exe_path w)))%nat ->
         AverageOutputs.get_next_x w = (Raise IndexError, w)).
Proof.
  assert (G : forall (X : Type) (grid : list X) (len : nat),
             (length grid < len)%nat -> walk grid len = Raise IndexError).
  { intros X grid len H. unfold walk.
    destruct (Nat.eqb_spec len (length grid)); [lia|].
    destruct (nth_error grid len) eqn:E; [|reflexivity].
    assert (nth_error grid len <> None) by congruence.
    apply nth_error_Some in H0. lia. }
  split; intros.
  - rewrite LinearScan_get_next_x_walk, G by assumption. reflexivity.
  - rewrite AverageOutputs_get_next_x_walk, G by assumption. reflexivity.
Qed.

(** A grid of two points and a path of three. *)
Lemma get_next_x_past_the_grid_witness :
  LinearScan.get_next_x
    (mkWorld (LinearScan.mkParams "LinearScan" [Pt 1; Pt 2] None)
             (ExePath.mk [Pt 1; Pt 2; Pt 3] [1; 2; 3]) [])
  = (Raise IndexError,
     mkWorld (LinearScan.mkParams "LinearScan" [Pt 1; Pt 2] None)
             (ExePath.mk [Pt 1; Pt 2; Pt 3] [1; 2; 3]) [])
  /\ AverageOutputs.get_next_x
       (mkWorld (AverageOutputs.mkParams "AverageOutputs" [Pt 1; Pt 2])
                (ExePath.mk [Pt 1; Pt 2; Pt 3] [1; 2; 3]) [])
     = (Raise IndexError,
        mkWorld (AverageOutputs.mkParams "AverageOutputs" [Pt 1; Pt 2])
                (ExePath.mk [Pt 1; Pt 2; Pt 3] [1; 2; 3]) []).
Proof.
  split.
  - apply (proj1 get_next_x_past_the_grid). simpl. lia.
  - apply (proj2 get_next_x_past_the_grid). simpl. lia.
Defined.

(** X9. [OptRightScan.get_next_x] needs the outputs of the path: with two
    inputs or more and one output at most, the least of the outputs before
    the last is asked of an empty array and the call raises ValueError,
    also when the cap on the length is exceeded, which is tested later. *)
Theorem OptRightScan_get_next_x_needs_the_outputs
  (w : World OptRightScan.Params point Q)
  (Hx : (2 <= length (ExePath.x (exe_path w)))%nat)
  (Hy : (length (ExePath.y (exe_path w)) <= 1)%nat) :
  OptRightScan.get_next_x w = (Raise ValueError, w).
Proof.
  destruct w as [P [xs ys] c]. cbn [exe_path ExePath.x ExePath.y] in Hx, Hy.
  unfold OptRightScan.get_next_x. munfold.
  cbn [exe_path ExePath.x ExePath.y self_params].
  destruct xs as [|x0 [|x1 xs]]; try (simpl in Hx; lia).
  pose proof (@rev_cons_not_nil _ x0 (x1 :: xs)) as Hr.
  cbn [length Nat.eqb Nat.leb].
  unfold np.min. munfold.
  cbn [exe_path ExePath.x ExePath.y self_params].
  destruct (rev (x0 :: x1 :: xs)) as [|last_x rx]; [congruence|].
  cbn [exe_path ExePath.x ExePath.y self_params].
  destruct ys as [|y0 [|y1 ys]]; try (simpl in Hy; lia); reflexivity.
Qed.

(** Two inputs and one output, under the cap [0], which the path exceeds. *)
Lemma OptRightScan_get_next_x_needs_the_outputs_witness :
  OptRightScan.get_next_x (scan_world 0 (ExePath.mk [Pt 4.0; Pt 4.1] [3]))
  = (Raise ValueError, scan_world 0 (ExePath.mk [Pt 4.0; Pt 4.1] [3])).
Proof.
  apply OptRightScan_get_next_x_needs_the_outputs; simpl; lia.
Defined.

(** ** The empty list of points *)

(** X10. [AverageOutputs] configured with no point: the run makes no query
    and returns the empty path with the mean of no output, [nan]. *)
Theorem AverageOutputs_of_no_point_is_nan {X : Type} (f : X -> Q) (fuel : nat)
  (w : World (AverageOutputs.Params X) X Q)
  (Hpoints : AverageOutputs.x_path (self_params w) = []) :
  AverageOutputs.run_algorithm_on_f f fuel w
  = (Ret (ExePath.mk [] [], None), scanned f [] w).
Proof.
  unfold AverageOutputs.run_algorithm_on_f.
  rewrite grid_run with (grid_of := @AverageOutputs.x_path X) (out_of := np.mean)
    by (reflexivity || apply AverageOutputs_get_next_x_walk).
  rewrite Hpoints. reflexivity.
Qed.

Lemma AverageOutputs_of_no_point_is_nan_witness :
  AverageOutputs.run_algorithm_on_f coord 0
    (mkWorld (AverageOutputs.mkParams "AverageOutputs" []) (ExePath.mk [] []) [])
  = (Ret (ExePath.mk [] [], None),
     scanned coord []
       (mkWorld (AverageOutputs.mkParams "AverageOutputs" []) (ExePath.mk [] []) [])).
Proof.
  apply AverageOutputs_of_no_point_is_nan. reflexivity.
Defined.

(** ** The timer *)

(** X11. A timer never prints, whatever [verbose] it is constructed with:
    [__init__] stores [False] and not its argument. A timed block writes
    one line, appended to the file, when a file name is given and is not
    the empty string, and nothing at all otherwise; the line is the time
    stamp, then the name in a tag when there is one, then the time elapsed
    between [__enter__] and [__exit__]. *)
Theorem Timer_never_prints (fmt : Q -> string) (name filename : option string)
  (verbose : bool) (start stop : Q) (stamp : string) (w : Timer.World) :
  Timer.timed fmt name filename verbose start stop stamp w
  = (Ret tt,
     Timer.mkWorld
       (Timer.mk name filename false (Some start))
       (Timer.written w
        ++ match filename with
           | Some file =>
               if String.eqb file "" then []
               else [Timer.Appended file
                       (stamp ++ ": " ++ " "
                        ++ timer_message fmt name (stop - start))%string]
           | None => []
           end)).
Proof.
  unfold Timer.timed, Timer.__init__, Timer.__enter__, Timer.__exit__,
    Timer.emit, timer_message.
  munfold. cbn [Timer.self Timer.written Timer.tstart Timer.name Timer.filename
                Timer.verbose].
  destruct name as [n|], filename as [file|]; cbn [Timer.truthy Timer.str];
    try destruct (String.eqb n ""); try destruct (String.eqb file "");
    cbn [negb]; rewrite ?app_nil_r; reflexivity.
Qed.

(** ** The spacing of the resampled grid *)

Lemma linspace_nth (start stop : Q) (num : Z) (S : Type) (s : S) :
  (2 <= num)%Z ->
  exists samples,
    np.linspace start stop num s = (Ret samples, s)
    /\ forall i v,
         nth_error samples i = Some v ->
         v == inject_Z (Z.of_nat i) * ((stop - start) / inject_Z (num - 1)) + start.
Proof.
  intro Hnum. unfold np.linspace.
  destruct (Z.ltb_spec num 0) as [H0|_]; [lia|].
  destruct (Z.ltb_spec 1 num) as [_|H1]; [|lia].
  destruct (Z.ltb_spec 0 (num - 1)) as [_|Hd]; [|lia].
  eexists. split; [reflexivity|].
  set (step := (stop - start) / inject_Z (num - 1)).
  set (L := map (fun i : Q => i * step + start)
              (map (fun i : nat => inject_Z (Z.of_nat i)) (seq 0 (Z.to_nat num)))).
  assert (HL : length L = Z.to_nat num)
    by (unfold L; now rewrite !length_map, length_seq).
  assert (Hfull : inject_Z (num - 1) * step == stop - start).
  { unfold step. apply Qmult_div_r.
    assert (0 < inject_Z (num - 1))
      by (change 0 with (inject_Z 0); rewrite <- Zlt_Qlt; lia).
    lra. }
  intros i v. rewrite removelast_firstn_len, nth_error_app, length_firstn, HL.
  rewrite Nat.min_l by lia.
  destruct (Nat.ltb_spec i (Nat.pred (Z.to_nat num))) as [Hi|Hi].
  - rewrite nth_error_firstn.
    destruct (Nat.ltb_spec i (Nat.pred (Z.to_nat num))); [|lia].
    unfold L. rewrite !nth_error_map, nth_error_seq.
    destruct (Nat.ltb_spec i (Z.to_nat num)); [|lia].
    simpl. intro E. injection E as <-. apply Qeq_refl.
  - destruct (i - Nat.pred (Z.to_nat num))%nat as [|j] eqn:Ej.
    + simpl. intro E. injection E as <-.
      assert (Ei : Z.of_nat i = (num - 1)%Z) by lia.
      rewrite Ei, Hfull. ring.
    + destruct j; discriminate.
Qed.

Lemma resample_samples {Y : Type} (draw : Z)
  (w : World (LinearScan.Params point) point Y) (p : point) (ps : list point) :
  LinearScan.x_path_orig (self_params w) = Some (p :: ps) ->
  exists num samples,
    (1 <= num)%Z
    /\ np.linspace (fold_left Qmin (map coord ps) (coord p))
                   (fold_left Qmax (map coord ps) (coord p)) num w
       = (Ret samples, w)
    /\ LinearScanRandGap.resample draw w = (Ret tt, with_x_path (map Pt samples) w).
Proof.
  intro Horig.
  set (n := Z.of_nat (length (p :: ps))).
  assert (Hn : (1 <= n)%Z) by (unfold n; simpl length; lia).
  destruct (ceil_range Hn) as [[Hc1 Hc1n] [Hc2 _]].
  set (min_gap := np.ceil ((1 - 0.2) * inject_Z n)) in *.
  set (max_gap := np.ceil ((1 + 0.2) * inject_Z n)) in *.
  set (k := (min_gap + draw mod (max_gap - min_gap))%Z).
  assert (Hk : (min_gap <= k < max_gap)%Z).
  { unfold k. pose proof (Z.mod_pos_bound draw (max_gap - min_gap)). lia. }
  set (lo := fold_left Qmin (map coord ps) (coord p)).
  set (hi := fold_left Qmax (map coord ps) (coord p)).
  assert (Hlohi : lo <= hi).
  { apply Qle_trans with (coord p);
      [apply fold_min_le_start|apply fold_max_ge_start]. }
  assert (Hk1 : (1 <= k)%Z) by lia.
  destruct (linspace_samples w Hlohi Hk1) as [samples [Hrun _]].
  exists k, samples. split; [exact Hk1|split; [exact Hrun|]].
  unfold LinearScanRandGap.resample, with_x_path. munfold. rewrite Horig.
  cbn [map]. fold n. fold min_gap. fold max_gap.
  unfold np.random_randint.
  destruct (Z.ltb_spec min_gap max_gap) as [_|H]; [|lia].
  unfold ret. fold k. cbn [np.min np.max]. unfold ret.
  fold lo. fold hi. rewrite Hrun. cbv beta iota.
  cbn [self_params LinearScan.x_path_orig]. rewrite ?Horig. reflexivity.
Qed.

(** X12. The grid a run of [LinearScanRandGap] scans is evenly spaced: in
    the path the run returns, the gap from an input to the next one, times
    the number of gaps [len(path) - 1], is the span of the original grid,
    its greatest coordinate less its least one. *)
Theorem LinearScanRandGap_grid_is_evenly_spaced {Y : Type} (f : point -> Y)
  (draw : Z) (fuel : nat) (w w' : World (LinearScan.Params point) point Y)
  (orig : list point) (path : ExePath.t point Y) (out : list Y)
  (Horig : LinearScan.x_path_orig (self_params w) = Some orig)
  (Hrun : LinearScanRandGap.run_algorithm_on_f f draw fuel w
          = (Ret (path, out), w')) :
  forall (lo hi : Q) (front back : list point) (a b : point),
    least lo (map coord orig) ->
    greatest hi (map coord orig) ->
    ExePath.x path = front ++ a :: b :: back ->
    (coord b - coord a) * (inject_Z (Z.of_nat (length (ExePath.x path))) - 1)
    == hi - lo.
Proof.
  intros lo hi front back a b Hlo Hhi Ex.
  destruct orig as [|p ps]; [destruct Hlo as [[] _]|].
  destruct (resample_samples draw w Horig) as [num [samples [Hnum [Hlin Hres]]]].
  unfold LinearScanRandGap.run_algorithm_on_f in Hrun. unfold bind at 1 in Hrun.
  rewrite Hres in Hrun. unfold LinearScan.run_algorithm_on_f in Hrun.
  rewrite grid_run with (grid_of := @LinearScan.x_path point)
                        (out_of := fun ys : list Y => ys) in Hrun
    by (reflexivity || apply LinearScan_get_next_x_walk).
  cbn [with_x_path self_params LinearScan.x_path] in Hrun.
  destruct (_ <=? _)%nat; [|discriminate].
  injection Hrun as <- _ _. cbn [ExePath.x] in *.
  rewrite (least_unique Hlo (fold_min_least (coord p) (map coord ps))).
  rewrite (greatest_unique Hhi (fold_max_greatest (coord p) (map coord ps))).
  set (lo' := fold_left Qmin (map coord ps) (coord p)) in *.
  set (hi' := fold_left Qmax (map coord ps) (coord p)) in *.
  assert (Hlen : (2 <= length samples)%nat).
  { rewrite <- (length_map Pt), Ex, length_app. simpl. lia. }
  assert (Hlo_hi : lo' <= hi').
  { apply Qle_trans with (coord p);
      [apply fold_min_le_start|apply fold_max_ge_start]. }
  destruct (linspace_samples w Hlo_hi Hnum) as [s1 [Hs1 [Hl1 _]]].
  rewrite Hlin in Hs1. injection Hs1 as <-.
  assert (Hnum2 : (2 <= num)%Z) by lia.
  destruct (linspace_nth lo' hi' w Hnum2) as [s2 [Hs2 Hnth]].
  rewrite Hlin in Hs2. injection Hs2 as <-.
  assert (Ha : nth_error samples (length front) = Some (coord a)).
  { rewrite <- (map_coord_Pt samples), Ex, nth_error_map, nth_error_app2 by lia.
    now rewrite Nat.sub_diag. }
  assert (Hb : nth_error samples (S (length front)) = Some (coord b)).
  { rewrite <- (map_coord_Pt samples), Ex, nth_error_map, nth_error_app2 by lia.
    replace (S (length front) - length front)%nat with 1%nat by lia.
    reflexivity. }
  rewrite (Hnth _ _ Ha), (Hnth _ _ Hb).
  rewrite length_map, Hl1, Z2Nat.id by lia.
  assert (Hfull : inject_Z (num - 1) * ((hi' - lo') / inject_Z (num - 1))
                  == hi' - lo').
  { apply Qmult_div_r.
    assert (0 < inject_Z (num - 1))
      by (change 0 with (inject_Z 0); rewrite <- Zlt_Qlt; lia).
    lra. }
  assert (Hinj : inject_Z (num - 1) == inject_Z num - 1).
  { unfold Zminus. rewrite inject_Z_plus. reflexivity. }
  assert (Hsucc : inject_Z (Z.of_nat (S (length front)))
                  == inject_Z (Z.of_nat (length front)) + 1).
  { replace (Z.of_nat (S (length front))) with (Z.of_nat (length front) + 1)%Z
      by lia.
    rewrite inject_Z_plus. reflexivity. }
  set (step := (hi' - lo') / inject_Z (num - 1)) in *. clearbody step.
  rewrite Hsucc, <- Hfull, Hinj. ring.
Qed.

(** The original grid [1, 3, 2, 7, 0], of span [7 - 0], and the draw [1]. *)
Lemma LinearScanRandGap_grid_is_evenly_spaced_witness :
  exists path out w',
    LinearScanRandGap.run_algorithm_on_f coord 1 10
      (gap_world [] [Pt 1; Pt 3; Pt 2; Pt 7; Pt 0])
    = (Ret (path, out), w')
    /\ forall (front back : list point) (a b : point),
         ExePath.x path = front ++ a :: b :: back ->
         (coord b - coord a) * (inject_Z (Z.of_nat (length (ExePath.x path))) - 1)
         == 7 - 0.
Proof.
  destruct (LinearScanRandGap.run_algorithm_on_f coord 1 10
              (gap_world [] [Pt 1; Pt 3; Pt 2; Pt 7; Pt 0]))
    as [[[path out]|e|] w'] eqn:E; try (vm_compute in E; discriminate E).
  exists path, out, w'. split; [reflexivity|].
  intros front back a b.
  apply (@LinearScanRandGap_grid_is_evenly_spaced Q coord 1 10
           (gap_world [] [Pt 1; Pt 3; Pt 2; Pt 7; Pt 0]) w'
           [Pt 1; Pt 3; Pt 2; Pt 7; Pt 0] path out eq_refl E 0 7).
  - split.
    + simpl. auto 6.
    + intros v [H|[H|[H|[H|[H|[]]]]]]; subst v; discriminate.
  - split.
    + simpl. auto 6.
    + intros v [H|[H|[H|[H|[H|[]]]]]]; subst v; discriminate.
Defined.

(** The right scan of the valley, replayed. *)
Lemma get_next_x_replays_the_path_witness :
  exists path out w',
    OptRightScan.run_algorithm_on_f valley 10 (scan_world 5 (ExePath.mk [] []))
    = (Ret (path, out), w')
    /\ replayed_by OptRightScan.get_next_x valley
                   (scan_world 5 (ExePath.mk [] [])) (ExePath.x path).
Proof.
  destruct (OptRightScan.run_algorithm_on_f valley 10
              (scan_world 5 (ExePath.mk [] []))) as [[[path out]|e|] w'] eqn:E;
    try (vm_compute in E; discriminate E).
  exists path, out, w'. split; [reflexivity|].
  exact (proj2 (proj2 (proj2 get_next_x_replays_the_path))
           valley 10%nat _ _ _ _ E).
Defined.
